(** * kd.py: a site mirror (batches, chapters, lecture and notes views)

    A shallow embedding of [src/kd.py].  Python strings are lists of code
    points; the functions of the script keep their names.  The network,
    the file system, the HTML parser, the template engine and [urljoin]
    are the environment: they appear as parameters of the functions that
    call them. *)

From Stdlib Require Import List NArith PeanoNat Lia Bool String Ascii DecimalString.
Import ListNotations.

Set Implicit Arguments.
Local Open Scope string_scope.
Local Open Scope N_scope.
Local Open Scope list_scope.

(** ** Python strings *)

(** A [str] is a sequence of Unicode code points. *)
Definition char := N.
Definition str := list char.

(** The code points of an ASCII literal. *)
Definition py (s : string) : str := map N_of_ascii (list_ascii_of_string s).

Definition str_eqb (a b : str) : bool :=
  if list_eq_dec N.eq_dec a b then true else false.

(** Truth value of a string: [if s:] holds for the non-empty ones. *)
Definition truthy (s : str) : bool :=
  match s with [] => false | _ :: _ => true end.

(** [str(n)] for a non-negative integer. *)
Definition str_of_nat (n : nat) : str :=
  py (NilEmpty.string_of_uint (Nat.to_uint n)).

(** [s.startswith(p)] *)
Fixpoint startswith (p s : str) : bool :=
  match p, s with
  | [], _ => true
  | _ :: _, [] => false
  | a :: p', b :: s' => N.eqb a b && startswith p' s'
  end.

(** [p in s] for strings: [p] occurs as a substring. *)
Fixpoint contains (p s : str) : bool :=
  startswith p s ||
  match s with
  | [] => false
  | _ :: s' => contains p s'
  end.

(** [str.isspace] on one code point, which is also the class [\s] of [re]
    on a [str] pattern: both test [Py_UNICODE_ISSPACE]. *)
Definition isspace (c : char) : bool :=
  ((9 <=? c) && (c <=? 13)) || ((28 <=? c) && (c <=? 32)) ||
  (c =? 133) || (c =? 160) || (c =? 5760) ||
  ((8192 <=? c) && (c <=? 8202)) ||
  (c =? 8232) || (c =? 8233) || (c =? 8239) || (c =? 8287) || (c =? 12288).

Definition SPACE : char := 32.

(** [s.lstrip()] *)
Fixpoint lstrip (s : str) : str :=
  match s with
  | [] => []
  | c :: s' => if isspace c then lstrip s' else s
  end.

(** [s.rstrip()]: a character is dropped when it is white and nothing but
    white space follows it. *)
Fixpoint rstrip (s : str) : str :=
  match s with
  | [] => []
  | c :: s' =>
      match rstrip s' with
      | [] => if isspace c then [] else [c]
      | r => c :: r
      end
  end.

(** [s.strip()] *)
Definition strip (s : str) : str := rstrip (lstrip s).

(** ** clean_filename *)

(** The character class of the first substitution: less-than (60),
    greater-than (62), colon (58), double quote (34), slash (47),
    backslash (92), bar (124), question mark (63) and star (42). *)
Definition invalid_char (c : char) : bool :=
  (c =? 60) || (c =? 62) || (c =? 58) || (c =? 34) || (c =? 47) ||
  (c =? 92) || (c =? 124) || (c =? 63) || (c =? 42).

(** The first [re.sub] of [clean_filename]: every character of the class
    is deleted. *)
Definition remove_invalid (name : str) : str :=
  filter (fun c => negb (invalid_char c)) name.

(** [re.sub(r'\s+', ' ', s)]: every maximal run of white space becomes one
    space.  [in_run] tells that the previous character was part of the
    run that is being replaced. *)
Fixpoint sub_spaces (in_run : bool) (s : str) : str :=
  match s with
  | [] => []
  | c :: s' =>
      if isspace c
      then (if in_run then sub_spaces true s' else SPACE :: sub_spaces true s')
      else c :: sub_spaces false s'
  end.

Definition collapse_spaces (s : str) : str := sub_spaces false s.

Definition clean_filename (name : str) : str :=
  let clean_name := remove_invalid name in
  let clean_name := collapse_spaces clean_name in
  firstn 100%nat (strip clean_name).

(** ** os.path on a POSIX system *)

Definition SEP : char := 47.

Definition endswith_sep (s : str) : bool :=
  match rev s with
  | c :: _ => c =? SEP
  | [] => false
  end.

(** [os.path.join(a, b)] *)
Definition path_join (a b : str) : str :=
  if startswith [SEP] b then b
  else if negb (truthy a) || endswith_sep a then a ++ b
  else a ++ SEP :: b.

(** [os.path.dirname(p)]: everything up to the last separator, without
    the trailing separators unless nothing else is left. *)
Fixpoint rstrip_sep (s : str) : str :=
  match s with
  | [] => []
  | c :: s' =>
      match rstrip_sep s' with
      | [] => if c =? SEP then [] else [c]
      | r => c :: r
      end
  end.

Fixpoint path_head (p : str) : str :=
  match p with
  | [] => []
  | c :: p' =>
      if existsb (N.eqb SEP) p' then c :: path_head p'
      else if c =? SEP then [c] else []
  end.

Definition dirname (p : str) : str :=
  let head := path_head p in
  if truthy head && negb (forallb (N.eqb SEP) head) then rstrip_sep head
  else head.

(** ** urllib.parse *)

Module Urllib.

(** *** UTF-8 *)

(** [s.encode('utf-8', 'strict')] on one code point: a surrogate raises
    [UnicodeEncodeError], which is [None] here. *)
Definition utf8_encode_char (c : char) : option (list N) :=
  if c <? 0x80 then Some [c]
  else if c <? 0x800 then Some [0xC0 + c / 64; 0x80 + c mod 64]
  else if (0xD800 <=? c) && (c <=? 0xDFFF) then None
  else if c <? 0x10000 then
    Some [0xE0 + c / 4096; 0x80 + (c / 64) mod 64; 0x80 + c mod 64]
  else if c <? 0x110000 then
    Some [0xF0 + c / 262144; 0x80 + (c / 4096) mod 64;
          0x80 + (c / 64) mod 64; 0x80 + c mod 64]
  else None.

Fixpoint utf8_encode (s : str) : option (list N) :=
  match s with
  | [] => Some []
  | c :: s' =>
      match utf8_encode_char c, utf8_encode s' with
      | Some bs, Some bs' => Some (bs ++ bs')
      | _, _ => None
      end
  end.

(** U+FFFD, what [errors='replace'] puts for a malformed sequence. *)
Definition REPLACEMENT : char := 0xFFFD.

Definition is_continuation (b : N) : bool := (0x80 <=? b) && (b <=? 0xBF).

(** [bs.decode('utf-8', 'replace')], after CPython's decoder: an invalid
    start byte is replaced alone, an invalid continuation replaces the
    bytes before it, and a sequence cut short by the end of the data is
    replaced as a whole. *)
Fixpoint utf8_decode (bs : list N) : str :=
  match bs with
  | [] => []
  | b1 :: r1 =>
      if b1 <? 0x80 then b1 :: utf8_decode r1
      else if b1 <? 0xC2 then REPLACEMENT :: utf8_decode r1
      else if b1 <? 0xE0 then
        match r1 with
        | [] => [REPLACEMENT]
        | b2 :: r2 =>
            if is_continuation b2
            then ((b1 mod 32) * 64 + b2 mod 64) :: utf8_decode r2
            else REPLACEMENT :: utf8_decode r1
        end
      else if b1 <? 0xF0 then
        match r1 with
        | [] => [REPLACEMENT]
        | b2 :: r2 =>
            if negb (is_continuation b2)
               || (if b2 <? 0xA0 then b1 =? 0xE0 else b1 =? 0xED)
            then REPLACEMENT :: utf8_decode r1
            else
              match r2 with
              | [] => [REPLACEMENT]
              | b3 :: r3 =>
                  if is_continuation b3
                  then ((b1 mod 16) * 4096 + (b2 mod 64) * 64 + b3 mod 64)
                         :: utf8_decode r3
                  else REPLACEMENT :: utf8_decode r2
              end
        end
      else if b1 <? 0xF5 then
        match r1 with
        | [] => [REPLACEMENT]
        | b2 :: r2 =>
            if negb (is_continuation b2)
               || (if b2 <? 0x90 then b1 =? 0xF0 else b1 =? 0xF4)
            then REPLACEMENT :: utf8_decode r1
            else
              match r2 with
              | [] => [REPLACEMENT]
              | b3 :: r3 =>
                  if negb (is_continuation b3)
                  then REPLACEMENT :: utf8_decode r2
                  else
                    match r3 with
                    | [] => [REPLACEMENT]
                    | b4 :: r4 =>
                        if is_continuation b4
                        then ((b1 mod 8) * 262144 + (b2 mod 64) * 4096
                              + (b3 mod 64) * 64 + b4 mod 64)
                               :: utf8_decode r4
                        else REPLACEMENT :: utf8_decode r3
                    end
              end
        end
      else REPLACEMENT :: utf8_decode r1
  end.

(** *** quote_plus and unquote *)

Definition PERCENT : char := 37.
Definition PLUS : char := 43.
Definition AMP : char := 38.
Definition EQUALS : char := 61.

(** [_ALWAYS_SAFE]: letters, digits and [_.-~]. *)
Definition always_safe (b : N) : bool :=
  ((65 <=? b) && (b <=? 90)) || ((97 <=? b) && (b <=? 122)) ||
  ((48 <=? b) && (b <=? 57)) ||
  (b =? 95) || (b =? 46) || (b =? 45) || (b =? 126).

Definition hex_digit (n : N) : char := if n <? 10 then 48 + n else 55 + n.

(** [_Quoter.__missing__]: the byte itself when it is safe, else a percent
    sign and two upper-case hexadecimal digits. *)
Definition quoter (safe : list N) (b : N) : str :=
  if always_safe b || existsb (N.eqb b) safe then [b]
  else [PERCENT; hex_digit (b / 16); hex_digit (b mod 16)].

Definition quote_from_bytes (bs : list N) (safe : list N) : str :=
  flat_map (quoter safe) bs.

(** [quote(string, safe)]; [None] when the encoding raises. *)
Definition quote (string : str) (safe : list N) : option str :=
  match utf8_encode string with
  | Some bs => Some (quote_from_bytes bs safe)
  | None => None
  end.

(** [s.replace(a, b)] for single characters. *)
Definition replace_char (a b : char) (s : str) : str :=
  map (fun c => if c =? a then b else c) s.

Definition quote_plus (string : str) : option str :=
  if negb (existsb (N.eqb SPACE) string) then quote string []
  else
    match quote string [SPACE] with
    | Some q => Some (replace_char SPACE PLUS q)
    | None => None
    end.

Definition hex_value (c : char) : option N :=
  if (48 <=? c) && (c <=? 57) then Some (c - 48)
  else if (65 <=? c) && (c <=? 70) then Some (c - 55)
  else if (97 <=? c) && (c <=? 102) then Some (c - 87)
  else None.

(** [unquote_to_bytes] on an ASCII string: a percent sign followed by two
    hexadecimal digits is one byte, any other percent sign stays. *)
Fixpoint unquote_to_bytes (s : str) : list N :=
  match s with
  | [] => []
  | c :: s' =>
      if c =? PERCENT then
        match s' with
        | h1 :: h2 :: s'' =>
            match hex_value h1, hex_value h2 with
            | Some a, Some b => (16 * a + b) :: unquote_to_bytes s''
            | _, _ => PERCENT :: unquote_to_bytes s'
            end
        | _ => PERCENT :: unquote_to_bytes s'
        end
      else c :: unquote_to_bytes s'
  end.

(** The loop of [unquote] over the pieces of [_asciire.split]: each
    maximal run of ASCII characters ([run], kept in reverse) is unquoted
    and decoded, the other characters are copied. *)
Fixpoint unquote_runs (run : str) (s : str) : str :=
  match s with
  | [] => utf8_decode (unquote_to_bytes (rev run))
  | c :: s' =>
      if c <? 128 then unquote_runs (c :: run) s'
      else utf8_decode (unquote_to_bytes (rev run)) ++ c :: unquote_runs [] s'
  end.

Definition unquote (string : str) : str :=
  if negb (existsb (N.eqb PERCENT) string) then string
  else unquote_runs [] string.

(** *** parse_qs and urlencode *)

(** [s.split(sep)] for a separator of one character. *)
Fixpoint split (sep : char) (s : str) : list str :=
  match s with
  | [] => [[]]
  | c :: s' =>
      if c =? sep then [] :: split sep s'
      else
        match split sep s' with
        | h :: t => (c :: h) :: t
        | [] => [[c]]
        end
  end.

(** [s.split(sep, 1)] when it has two pieces; [None] when [sep] does not
    occur in [s]. *)
Fixpoint split1 (sep : char) (s : str) : option (str * str) :=
  match s with
  | [] => None
  | c :: s' =>
      if c =? sep then Some ([], s')
      else
        match split1 sep s' with
        | Some (a, b) => Some (c :: a, b)
        | None => None
        end
  end.

(** [parse_qsl(qs)] with its default arguments: fields are separated by
    an ampersand, and a field that is empty, has no equals sign or has a
    blank value is left out. *)
Definition parse_field (name_value : str) : list (str * str) :=
  if negb (truthy name_value) then []
  else
    match split1 EQUALS name_value with
    | None => []
    | Some (n, v) =>
        if truthy v
        then [(unquote (replace_char PLUS SPACE n),
               unquote (replace_char PLUS SPACE v))]
        else []
    end.

Definition parse_qsl (qs : str) : list (str * str) :=
  let query_args := if truthy qs then split AMP qs else [] in
  flat_map parse_field query_args.

(** A [dict] from strings to lists of strings, in insertion order. *)
Definition dict := list (str * list str).

Fixpoint dict_get (d : dict) (k : str) : option (list str) :=
  match d with
  | [] => None
  | (k', vs) :: d' => if str_eqb k k' then Some vs else dict_get d' k
  end.

(** [d[k].append(v)] when [k] is a key of [d], else [d[k] = [v]]. *)
Fixpoint dict_append (d : dict) (k v : str) : dict :=
  match d with
  | [] => [(k, [v])]
  | (k', vs) :: d' =>
      if str_eqb k k' then (k', vs ++ [v]) :: d'
      else (k', vs) :: dict_append d' k v
  end.

(** [d[k] = vs]: an existing key keeps its place. *)
Fixpoint dict_set (d : dict) (k : str) (vs : list str) : dict :=
  match d with
  | [] => [(k, vs)]
  | (k', vs') :: d' =>
      if str_eqb k k' then (k', vs) :: d'
      else (k', vs') :: dict_set d' k vs
  end.

Definition parse_qs (qs : str) : dict :=
  fold_left (fun parsed_result nv => dict_append parsed_result (fst nv) (snd nv))
            (parse_qsl qs) [].

(** [sep.join(l)] *)
Fixpoint join (sep : str) (l : list str) : str :=
  match l with
  | [] => []
  | [a] => a
  | a :: l' => a ++ sep ++ join sep l'
  end.

(** All the results, or [None] when one of them is [None]. *)
Fixpoint sequence {A} (l : list (option A)) : option (list A) :=
  match l with
  | [] => Some []
  | Some a :: l' =>
      match sequence l' with
      | Some r => Some (a :: r)
      | None => None
      end
  | None :: _ => None
  end.

(** The strings [k + '=' + elt] that [urlencode] appends for one key,
    already quoted, and its values. *)
Definition encode_values (k : str) (v : list str) : option (list str) :=
  sequence
    (map (fun elt =>
            match quote_plus elt with
            | Some elt => Some (k ++ EQUALS :: elt)
            | None => None
            end) v).

Definition encode_item (kv : str * list str) : option (list str) :=
  match quote_plus (fst kv) with
  | Some k => encode_values k (snd kv)
  | None => None
  end.

(** [urlencode(query, doseq=True)] on a dict of lists of strings; [None]
    when a key or a value cannot be encoded. *)
Definition urlencode (query : dict) : option str :=
  match sequence (map encode_item query) with
  | Some l => Some (join [AMP] (List.concat l))
  | None => None
  end.

(** *** ParseResult *)

Record ParseResult := {
  scheme : str;
  netloc : str;
  path : str;
  params : str;
  query : str;
  fragment : str
}.

(** [parsed._replace(query=q)] *)
Definition replace_query (parsed : ParseResult) (q : str) : ParseResult :=
  {| scheme := scheme parsed; netloc := netloc parsed; path := path parsed;
     params := params parsed; query := q; fragment := fragment parsed |}.

Definition uses_netloc : list str :=
  [] :: map py ["ftp"; "http"; "gopher"; "nntp"; "telnet";
          "imap"; "wais"; "file"; "mms"; "https"; "shttp";
          "snews"; "prospero"; "rtsp"; "rtspu"; "rsync";
          "svn"; "svn+ssh"; "sftp"; "nfs"; "git"; "git+ssh";
          "ws"; "wss"]%string.

Definition urlunsplit (scheme netloc url query fragment : str) : str :=
  let url :=
    if truthy netloc
       || (truthy scheme && existsb (str_eqb scheme) uses_netloc
           && negb (str_eqb (firstn 2 url) [SEP; SEP]))
    then
      let url := if truthy url && negb (str_eqb (firstn 1 url) [SEP])
                 then SEP :: url else url in
      [SEP; SEP] ++ netloc ++ url
    else url in
  let url := if truthy scheme then scheme ++ 58 :: url else url in
  let url := if truthy query then url ++ 63 :: query else url in
  if truthy fragment then url ++ 35 :: fragment else url.

Definition urlunparse (p : ParseResult) : str :=
  let url := if truthy (params p) then path p ++ 59 :: params p else path p in
  urlunsplit (scheme p) (netloc p) url (query p) (fragment p).

(** [parsed.geturl()] *)
Definition geturl (p : ParseResult) : str := urlunparse p.

End Urllib.

(** ** The parsed page *)

(** What the script reads of an element: its attributes and its text. *)
Record Tag := {
  attrs : list (str * str);
  get_text : str
}.

(** [tag.attrs.get(k)] *)
Fixpoint attrs_get (l : list (str * str)) (k : str) : option str :=
  match l with
  | [] => None
  | (k', v) :: l' => if str_eqb k k' then Some v else attrs_get l' k
  end.

(** [tag.get(k, '')] *)
Definition tag_get (t : Tag) (k : str) : str :=
  match attrs_get (attrs t) k with
  | Some v => v
  | None => []
  end.

(** A [div] of class [batch-item], with the results of the three [find]
    calls that [extract_batches] makes on it. *)
Record BatchItem := {
  batch_div : Tag;
  batch_title : option Tag;     (* find('h3', class_='batch-title') *)
  study_btn : option Tag;       (* find('a', class_='study-btn') *)
  batch_image : option Tag      (* find('img', class_='batch-image') *)
}.

(** A [div] of class [chapter-card], with the results of the [find] and
    [find_all] calls of [extract_chapters]. *)
Record ChapterCard := {
  chapter_div : Tag;
  chapter_title : option Tag;        (* find('h3', class_='chapter-title') *)
  chapter_anchor : option Tag;       (* find('a') *)
  chapter_stats : option (list Tag); (* find('div', class_='stats'), then
                                        find_all('div', class_='stat-item') *)
  chapter_image : option Tag         (* find('img', class_='chapter-image') *)
}.

(** ** The records *)

(** The dict of a batch; [folder_name] is the key that [create_main_index]
    adds. *)
Record Batch := {
  batch_name : str;
  batch_link : str;
  batch_img : str;
  batch_folder_name : option str
}.

Record Stats := { videos : nat; notes : nat }.

(** The dict of a chapter; its link is [None] when none was found. *)
Record Chapter := {
  chapter_name : str;
  chapter_link : option str;
  chapter_img : str;
  chapter_stats_of : Stats;
  chapter_folder_name : option str
}.

(** ** Effects *)

(** An exception, as the text that [str(e)] gives for it. *)
Definition exn := str.

Inductive outcome (A : Type) : Type :=
| Ret (a : A)
| Raise (e : exn).
Arguments Ret {A} a.
Arguments Raise {A} e.

(** What a run does to the world, each call with its result. *)
Inductive event : Type :=
| Get (url : str) (headers : list (str * str)) (r : outcome str)
| Sleep (seconds : nat)
| Print (msg : str)
| Makedirs (path : str) (r : option exn)
| WriteFile (path content : str) (r : option exn).

(** The events so far, the oldest first. *)
Definition history := list event.

(** The world outside the script.  The answers of the network and of the
    file system may depend on everything that happened before. *)
Class Environment := {
  (** [requests.get(url, headers=headers, timeout=20, verify=False)]
      followed by [raise_for_status()] and [.text] *)
  requests_get : history -> str -> list (str * str) -> outcome str;
  (** [os.makedirs(path, exist_ok=True)]: the exception, if it raises *)
  os_makedirs : history -> str -> option exn;
  (** [open(path, 'w', encoding='utf-8')] and the write of the content *)
  open_write : history -> str -> str -> option exn;
  (** [urllib.parse.urljoin] and [urllib.parse.urlparse], which raise
      [ValueError] on some malformed URLs *)
  urljoin : str -> str -> outcome str;
  urlparse : str -> outcome Urllib.ParseResult;
  (** [BeautifulSoup(content, 'html.parser')] and [find_all] of the batch
      items, of the chapter cards *)
  soup_batch_items : str -> list BatchItem;
  soup_chapter_cards : str -> list ChapterCard;
  (** [int(re.search(r'\d+', text).group())], [None] without a match *)
  search_int : str -> option nat;
  (** the two jinja2 templates, rendered *)
  render_main_index : list Batch -> str;
  render_batch_index : Batch -> list Chapter -> str
}.

(** A computation reads and extends the history, and returns or raises. *)
Definition M (A : Type) : Type := history -> outcome A * history.

Definition ret {A} (a : A) : M A := fun h => (Ret a, h).

Definition raise {A} (e : exn) : M A := fun h => (Raise e, h).

Definition bind {A B} (m : M A) (k : A -> M B) : M B :=
  fun h =>
    match m h with
    | (Ret a, h') => k a h'
    | (Raise e, h') => (Raise e, h')
    end.

(** [try: body except Exception as e: handler e] *)
Definition try_except {A} (body : M A) (handler : exn -> M A) : M A :=
  fun h =>
    match body h with
    | (Ret a, h') => (Ret a, h')
    | (Raise e, h') => handler e h'
    end.

(** A pure computation that may raise. *)
Definition lift {A} (o : outcome A) : M A := fun h => (o, h).

Notation "x <- m ;; k" := (bind m (fun x => k))
  (at level 61, m at next level, right associativity).
Notation "m ;;; k" := (bind m (fun _ => k))
  (at level 61, right associativity).

Section Script.

Context {E : Environment}.

Definition print (msg : str) : M unit := fun h => (Ret tt, h ++ [Print msg]).

Definition sleep (seconds : nat) : M unit :=
  fun h => (Ret tt, h ++ [Sleep seconds]).

Definition get (url : str) (headers : list (str * str)) : M str :=
  fun h => let r := requests_get h url headers in (r, h ++ [Get url headers r]).

Definition makedirs (p : str) : M unit :=
  fun h =>
    let r := os_makedirs h p in
    (match r with Some e => Raise e | None => Ret tt end, h ++ [Makedirs p r]).

(** [with open(p, 'w', encoding='utf-8') as f: f.write(content)].  The
    content is [None] where Python has [None]: the file is then opened,
    and the write raises [TypeError]. *)
Definition write_file (p : str) (content : option str) : M unit :=
  fun h =>
    match content with
    | Some text =>
        let r := open_write h p text in
        (match r with Some e => Raise e | None => Ret tt end,
         h ++ [WriteFile p text r])
    | None =>
        let r := open_write h p [] in
        (Raise (match r with
                | Some e => e
                | None => py "write() argument must be str, not None"
                end),
         h ++ [WriteFile p [] r])
    end.

(** ** The script *)

Definition generate_headers : list (str * str) :=
  [(py "User-Agent", py "Mozilla/5.0 (Windows NT 10.0; Win64; x64) AppleWebKit/537.36 (KHTML, like Gecko) Chrome/120.0.0.0 Safari/537.36");
   (py "Accept", py "text/html,application/xhtml+xml,application/xml;q=0.9,image/webp,*/*;q=0.8");
   (py "Accept-Language", py "en-US,en;q=0.5");
   (py "Accept-Encoding", py "gzip, deflate");
   (py "Connection", py "keep-alive");
   (py "Upgrade-Insecure-Requests", py "1")].

(** The line that [get_page_content] prints for a failed attempt. *)
Definition fetch_error_msg (url : str) (attempt : nat) (e : exn) : str :=
  py "Error fetching " ++ url ++ py " (attempt "
    ++ str_of_nat (attempt + 1) ++ py "): " ++ e.

(** The [for attempt in range(max_retries)] loop of [get_page_content],
    from [attempt] on with [remaining] rounds to go.  The result is the
    pair that the function returns, or [None] for Python's [None] when
    the loop ends without a [return]. *)
Fixpoint get_page_content_from (url : str) (max_retries attempt remaining : nat)
  : M (option (option str * bool)) :=
  match remaining with
  | O => ret None
  | S remaining' =>
      try_except
        (text <- get url generate_headers ;;
         ret (Some (Some text, true)))
        (fun e =>
           print (fetch_error_msg url attempt e) ;;;
           if (attempt <? max_retries - 1)%nat
           then sleep 2 ;;; get_page_content_from url max_retries (S attempt) remaining'
           else ret (Some (None, false)))
  end.

Definition get_page_content (url : str) (max_retries : nat)
  : M (option (option str * bool)) :=
  get_page_content_from url max_retries 0 max_retries.

(** [content, success = get_page_content(url)], with the default of three
    rounds; unpacking [None] raises [TypeError]. *)
Definition fetch (url : str) : M (option str * bool) :=
  r <- get_page_content url 3 ;;
  match r with
  | Some p => ret p
  | None => raise (py "cannot unpack non-iterable NoneType object")
  end.

Definition save_html (content : option str) (filepath : str) : M bool :=
  try_except
    (makedirs (dirname filepath) ;;;
     write_file filepath content ;;;
     ret true)
    (fun e =>
       print (py "Error saving " ++ filepath ++ py ": " ++ e) ;;;
       ret false).

(** Adds the key [folder_name] to a batch. *)
Definition set_batch_folder_name (b : Batch) : Batch :=
  {| batch_name := batch_name b; batch_link := batch_link b;
     batch_img := batch_img b;
     batch_folder_name := Some (clean_filename (batch_name b)) |}.

(** The dicts of the list are changed in place: the caller goes on with
    the list that is returned. *)
Definition create_main_index (batches : list Batch) (base_dir : str)
  : M (list Batch) :=
  let batches := map set_batch_folder_name batches in
  let html_content := render_main_index batches in
  let index_path := path_join base_dir (py "index.html") in
  save_html (Some html_content) index_path ;;;
  print (py "Created main index.html at " ++ index_path) ;;;
  ret batches.

(** [img_elem['src'] if img_elem and 'src' in img_elem.attrs else ''],
    joined to the page's URL unless it starts with [http] or [//]. *)
Definition image_src (page_url : str) (img_elem : option Tag) : outcome str :=
  let img_src :=
    match img_elem with
    | Some img => match attrs_get (attrs img) (py "src") with
                  | Some src => src
                  | None => []
                  end
    | None => []
    end in
  if truthy img_src
     && negb (startswith (py "http") img_src || startswith (py "//") img_src)
  then urljoin page_url img_src
  else Ret img_src.

(** The name that [extract_batches] finds for an item: the data attribute,
    else the text of the title element, else the empty string that the
    attribute defaulted to. *)
Definition batch_item_name (item : BatchItem) : str :=
  let batch_name := tag_get (batch_div item) (py "data-batch-name") in
  if negb (truthy batch_name) then
    match batch_title item with
    | Some title_elem => strip (get_text title_elem)
    | None => batch_name
    end
  else batch_name.

(** The body of the [try] of [extract_batches] for one item: the record
    that is appended, if one is. *)
Definition extract_batch (main_url : str) (item : BatchItem)
  : outcome (option Batch) :=
  let batch_name := batch_item_name item in
  match study_btn item with
  | Some link_elem =>
      match attrs_get (attrs link_elem) (py "href") with
      | Some href =>
          match urljoin main_url href with
          | Raise e => Raise e
          | Ret batch_link =>
              match image_src main_url (batch_image item) with
              | Raise e => Raise e
              | Ret img_src =>
                  Ret (Some {| batch_name := batch_name;
                               batch_link := batch_link;
                               batch_img := img_src;
                               batch_folder_name := None |})
              end
          end
      | None => Ret None
      end
  | None => Ret None
  end.

Fixpoint extract_batches_loop (main_url : str) (batch_divs : list BatchItem)
    (batches : list Batch) : M (list Batch) :=
  match batch_divs with
  | [] => ret batches
  | item :: rest =>
      batches <-
        try_except
          (b <- lift (extract_batch main_url item) ;;
           ret (match b with
                | Some b => batches ++ [b]
                | None => batches
                end))
          (fun e =>
             print (py "Error processing batch: " ++ e) ;;;
             ret batches) ;;
      extract_batches_loop main_url rest batches
  end.

Definition extract_batches (main_url : str) : M (list Batch) :=
  print (py "Fetching batches from: " ++ main_url) ;;;
  r <- fetch main_url ;;
  let (content, success) := r in
  if negb success then ret []
  else
    let batch_divs :=
      soup_batch_items (match content with Some text => text | None => [] end) in
    extract_batches_loop main_url batch_divs [].

(** [re.search(r"window\.location\.href='([^']+)'", s)]: group 1 of the
    leftmost match. *)
Definition QUOTE : char := 39.

Fixpoint until_quote (s : str) : option str :=
  match s with
  | [] => None
  | c :: s' =>
      if c =? QUOTE then Some []
      else match until_quote s' with
           | Some g => Some (c :: g)
           | None => None
           end
  end.

Definition href_prefix : str := py "window.location.href='".

Definition match_href_at (s : str) : option str :=
  if startswith href_prefix s then
    match until_quote (skipn (List.length href_prefix) s) with
    | Some g => if truthy g then Some g else None
    | None => None
    end
  else None.

Fixpoint search_href (s : str) : option str :=
  match match_href_at s with
  | Some g => Some g
  | None =>
      match s with
      | [] => None
      | _ :: s' => search_href s'
      end
  end.

(** The value of a counter: [int(m.group() if m else 0)]. *)
Definition counter (text : str) : nat :=
  match search_int text with
  | Some n => n
  | None => 0%nat
  end.

Fixpoint read_stats (stat_items : list Tag) (stats : Stats) : Stats :=
  match stat_items with
  | [] => stats
  | item :: rest =>
      let text := get_text item in
      let stats :=
        if contains (py "Videos") text
        then {| videos := counter text; notes := notes stats |}
        else if contains (py "Notes") text
        then {| videos := videos stats; notes := counter text |}
        else stats in
      read_stats rest stats
  end.

(** [not chapter_link] and [if chapter['link']]: [None] and the empty
    string are false. *)
Definition link_truthy (l : option str) : bool :=
  match l with
  | Some u => truthy u
  | None => false
  end.

(** The body of the [try] of [extract_chapters] for one card. *)
Definition extract_chapter (batch_url : str) (card : ChapterCard)
  : outcome Chapter :=
  let chapter_name :=
    match chapter_title card with
    | Some title_elem => strip (get_text title_elem)
    | None => py "Unknown Chapter"
    end in
  let onclick_attr := tag_get (chapter_div card) (py "onclick") in
  let from_onclick : outcome (option str) :=
    if contains (py "window.location.href") onclick_attr then
      match search_href onclick_attr with
      | Some g => match urljoin batch_url g with
                  | Ret u => Ret (Some u)
                  | Raise e => Raise e
                  end
      | None => Ret None
      end
    else Ret None in
  match from_onclick with
  | Raise e => Raise e
  | Ret chapter_link =>
      let from_anchor : outcome (option str) :=
        if negb (link_truthy chapter_link) then
          match chapter_anchor card with
          | Some link_elem =>
              match attrs_get (attrs link_elem) (py "href") with
              | Some href => match urljoin batch_url href with
                             | Ret u => Ret (Some u)
                             | Raise e => Raise e
                             end
              | None => Ret chapter_link
              end
          | None => Ret chapter_link
          end
        else Ret chapter_link in
      match from_anchor with
      | Raise e => Raise e
      | Ret chapter_link =>
          let stats :=
            match chapter_stats card with
            | Some stat_items =>
                read_stats stat_items {| videos := 0; notes := 0 |}
            | None => {| videos := 0; notes := 0 |}
            end in
          match image_src batch_url (chapter_image card) with
          | Raise e => Raise e
          | Ret img_src =>
              Ret {| chapter_name := chapter_name;
                     chapter_link := chapter_link;
                     chapter_img := img_src;
                     chapter_stats_of := stats;
                     chapter_folder_name := None |}
          end
      end
  end.

Fixpoint extract_chapters_loop (batch_url : str) (chapter_divs : list ChapterCard)
    (chapters : list Chapter) : M (list Chapter) :=
  match chapter_divs with
  | [] => ret chapters
  | card :: rest =>
      chapters <-
        try_except
          (c <- lift (extract_chapter batch_url card) ;;
           ret (chapters ++ [c]))
          (fun e =>
             print (py "Error processing chapter: " ++ e) ;;;
             ret chapters) ;;
      extract_chapters_loop batch_url rest chapters
  end.

Definition extract_chapters (batch_url batch_name : str) : M (list Chapter) :=
  print (py "Fetching chapters from: " ++ batch_url) ;;;
  r <- fetch batch_url ;;
  let (content, success) := r in
  if negb success then ret []
  else
    let chapter_divs :=
      soup_chapter_cards (match content with Some text => text | None => [] end) in
    extract_chapters_loop batch_url chapter_divs [].

Definition set_chapter_folder_name (c : Chapter) : Chapter :=
  {| chapter_name := chapter_name c; chapter_link := chapter_link c;
     chapter_img := chapter_img c; chapter_stats_of := chapter_stats_of c;
     chapter_folder_name := Some (clean_filename (chapter_name c)) |}.

Definition create_batch_index (batch : Batch) (chapters : list Chapter)
    (batch_folder_path : str) : M (list Chapter) :=
  let chapters := map set_chapter_folder_name chapters in
  let html_content := render_batch_index batch chapters in
  let index_path := path_join batch_folder_path (py "index.html") in
  save_html (Some html_content) index_path ;;;
  print (py "Created batch index.html at " ++ index_path) ;;;
  ret chapters.

(** The URL of a view of a chapter, which [create_chapter_views] derives
    in place, once for [lectures] and once for [notes]:
    [urlparse], [parse_qs], the assignment to the key [view], [urlencode]
    and [geturl]. *)
Definition view_url_of (parsed_url : Urllib.ParseResult) (view : str)
  : outcome str :=
  let query_params := Urllib.parse_qs (Urllib.query parsed_url) in
  let query_params := Urllib.dict_set query_params (py "view") [view] in
  match Urllib.urlencode query_params with
  | Some q => Ret (Urllib.geturl (Urllib.replace_query parsed_url q))
  | None => Raise (py "'utf-8' codec can't encode character: surrogates not allowed")
  end.

Definition view_url (link view : str) : outcome str :=
  match urlparse link with
  | Ret parsed_url => view_url_of parsed_url view
  | Raise e => Raise e
  end.

(** One half of [create_chapter_views], which the source writes out twice,
    for [Lectures] and [lectures] and for [Notes] and [notes]: the folder
    of a view and, when the chapter has a link, the fetched page as its
    index. *)
Definition create_view (chapter : Chapter) (chapter_folder_path : str)
    (folder view : string) : M unit :=
  let view_folder := path_join chapter_folder_path (py folder) in
  makedirs view_folder ;;;
  if link_truthy (chapter_link chapter) then
    url <- lift (view_url (match chapter_link chapter with
                           | Some l => l
                           | None => []
                           end) (py view)) ;;
    r <- fetch url ;;
    let (content, success) := r in
    if success then
      let index_path := path_join view_folder (py "index.html") in
      save_html content index_path ;;;
      print (py "Created " ++ py view ++ py " index.html at " ++ index_path)
    else ret tt
  else ret tt.

Definition create_chapter_views (chapter : Chapter) (chapter_folder_path : str)
  : M unit :=
  create_view chapter chapter_folder_path "Lectures" "lectures" ;;;
  create_view chapter chapter_folder_path "Notes" "notes".

(** [for x in l: body x] *)
Fixpoint for_each {A} (l : list A) (body : A -> M unit) : M unit :=
  match l with
  | [] => ret tt
  | x :: l' => body x ;;; for_each l' body
  end.

(** [chapter_folder_path] of [create_batch_structure] *)
Definition chapter_folder_path (batch_folder_path : str) (chapter : Chapter)
  : str :=
  let chapter_folder_name := clean_filename (chapter_name chapter) in
  path_join batch_folder_path chapter_folder_name.

(** [batch_folder_path] of [create_batch_structure] *)
Definition batch_folder_path (base_dir : str) (batch : Batch) : str :=
  let batch_folder_name := clean_filename (batch_name batch) in
  path_join base_dir batch_folder_name.

Definition process_chapter (batch_folder_path : str) (chapter : Chapter)
  : M unit :=
  let chapter_folder_path := chapter_folder_path batch_folder_path chapter in
  makedirs chapter_folder_path ;;;
  print (py "  Processing chapter: " ++ chapter_name chapter) ;;;
  print (py "  Folder: " ++ chapter_folder_path) ;;;
  create_chapter_views chapter chapter_folder_path.

(** The body of the [try] of [create_batch_structure] for one batch. *)
Definition process_batch (base_dir : str) (batch : Batch) : M unit :=
  let batch_folder_path := batch_folder_path base_dir batch in
  makedirs batch_folder_path ;;;
  print (10 :: py "Processing batch: " ++ batch_name batch) ;;;
  print (py "Folder: " ++ batch_folder_path) ;;;
  r <- fetch (batch_link batch) ;;
  let (batch_content, success) := r in
  (if success then
     let batch_html_path := path_join batch_folder_path (py "batch_details.html") in
     save_html batch_content batch_html_path ;;;
     print (py "Saved batch HTML: " ++ batch_html_path)
   else ret tt) ;;;
  chapters <- extract_chapters (batch_link batch) (batch_name batch) ;;
  chapters <- create_batch_index batch chapters batch_folder_path ;;
  for_each chapters (process_chapter batch_folder_path) ;;;
  sleep 1.

Definition create_batch_structure (main_url base_dir : str) : M unit :=
  batches <- extract_batches main_url ;;
  match batches with
  | [] => print (py "No batches found!")
  | _ :: _ =>
      print (py "Found " ++ str_of_nat (List.length batches) ++ py " batches") ;;;
      batches <- create_main_index batches base_dir ;;
      for_each batches
        (fun batch =>
           try_except
             (process_batch base_dir batch)
             (fun e =>
                print (py "Error processing batch " ++ batch_name batch
                       ++ py ": " ++ e)))
  end.

Definition kd_base_dir : str := py "/storage/emulated/0/KD_BEST/".


End Script.

(** ** Extraction, item by item *)

Section Records.

Context {E : Environment}.

(** The records of the items that yield one, in the order of the page. *)
Definition batch_records (main_url : str) (items : list BatchItem)
  : list Batch :=
  flat_map (fun item =>
              match extract_batch main_url item with
              | Ret (Some b) => [b]
              | _ => []
              end) items.

(** The lines that [extract_batches] prints for the items whose body
    raised. *)
Definition batch_warnings (main_url : str) (items : list BatchItem)
  : list event :=
  flat_map (fun item =>
              match extract_batch main_url item with
              | Raise e => [Print (py "Error processing batch: " ++ e)]
              | Ret _ => []
              end) items.

Definition chapter_records (batch_url : str) (cards : list ChapterCard)
  : list Chapter :=
  flat_map (fun card =>
              match extract_chapter batch_url card with
              | Ret c => [c]
              | Raise _ => []
              end) cards.

Definition chapter_warnings (batch_url : str) (cards : list ChapterCard)
  : list event :=
  flat_map (fun card =>
              match extract_chapter batch_url card with
              | Raise e => [Print (py "Error processing chapter: " ++ e)]
              | Ret _ => []
              end) cards.

(** The link of an item: the target of its study button. *)
Definition batch_item_href (item : BatchItem) : option str :=
  match study_btn item with
  | Some link_elem => attrs_get (attrs link_elem) (py "href")
  | None => None
  end.

End Records.

(** ** Traces *)

(** The events of one failed attempt of [get_page_content]. *)
Definition failed_round (url : str) (attempt : nat) (e : exn) : list event :=
  [Get url generate_headers (Raise e); Print (fetch_error_msg url attempt e)].

(** Failed attempts, each followed by the pause of two seconds, counted
    from [attempt] on. *)
Fixpoint retries (url : str) (attempt : nat) (errs : list exn) : list event :=
  match errs with
  | [] => []
  | e :: errs' =>
      failed_round url attempt e ++ Sleep 2 :: retries url (S attempt) errs'
  end.

Definition is_fs_event (ev : event) : bool :=
  match ev with
  | Makedirs _ _ | WriteFile _ _ _ => true
  | _ => false
  end.

Definition is_get (ev : event) : bool :=
  match ev with
  | Get _ _ _ => true
  | _ => false
  end.

(** A file system that accepts every operation. *)
Definition reliable_fs (E : Environment) : Prop :=
  (forall h p, os_makedirs h p = None) /\
  (forall h p content, open_write h p content = None).

(** [m] only adds events to the history. *)
Definition extends {E : Environment} {A} (m : M A) : Prop :=
  forall h, exists t, snd (m h) = h ++ t.

(** [m] returns, whatever happened before. *)
Definition returns {E : Environment} {A} (m : M A) : Prop :=
  forall h, exists a, fst (m h) = Ret a.

(** The number of requests in a trace, and the seconds slept in it. *)
Definition requests (t : list event) : nat := List.length (filter is_get t).

Definition seconds_slept (t : list event) : nat :=
  list_sum (map (fun ev => match ev with Sleep n => n | _ => 0%nat end) t).

(** [m] adds at most [r] requests and [s] seconds of sleep to the
    history, whatever happened before. *)
Definition costs {A} (m : M A) (r s : nat) : Prop :=
  forall h, exists t,
    snd (m h) = h ++ t /\ (requests t <= r)%nat /\ (seconds_slept t <= s)%nat.

(** ** A small site *)

Module Example.

Definition main_url : str := py "https://site.example/kd/".
Definition nameless_url : str := py "https://site.example/nameless/".
Definition symbols_url : str := py "https://site.example/symbols/".
Definition empty_url : str := py "https://site.example/none/".
Definition batch_url : str := py "https://site.example/kd/batch?id=1".
Definition chapter_url : str := py "https://site.example/kd/chapter?id=7".
Definition lectures_url : str :=
  py "https://site.example/kd/chapter?id=7&view=lectures".
Definition notes_url : str :=
  py "https://site.example/kd/chapter?id=7&view=notes".
Definition base_dir : str := py "/out/".

Definition tag (l : list (string * string)) (text : string) : Tag :=
  {| attrs := map (fun kv => (py (fst kv), py (snd kv))) l;
     get_text := py text |}.

Definition study : Tag := tag [("href", "https://site.example/kd/batch?id=1")] "Study".

(** A batch item with a name and a link. *)
Definition physics_item : BatchItem :=
  {| batch_div := tag [("data-batch-name", "Physics 101")] "Physics";
     batch_title := None; study_btn := Some study; batch_image := None |}.

(** A batch item with a link, but without the data attribute and without a
    title element. *)
Definition nameless_item : BatchItem :=
  {| batch_div := tag [] "?"; batch_title := None;
     study_btn := Some study; batch_image := None |}.

(** A batch item whose name is made of invalid characters and spaces. *)
Definition symbols_item : BatchItem :=
  {| batch_div := tag [("data-batch-name", "<?> | *")] "?";
     batch_title := None; study_btn := Some study; batch_image := None |}.

(** Two chapter cards: one with a link in its handler, one without any. *)
Definition motion_card : ChapterCard :=
  {| chapter_div :=
       tag [("onclick",
             "window.location.href='https://site.example/kd/chapter?id=7'")] "";
     chapter_title := Some (tag [] " Ch 1: Motion ");
     chapter_anchor := None; chapter_stats := None; chapter_image := None |}.

Definition plain_card : ChapterCard :=
  {| chapter_div := tag [] ""; chapter_title := Some (tag [] "Ch 2");
     chapter_anchor := None; chapter_stats := None; chapter_image := None |}.

(** The site: the lectures view is down, every other page answers. *)
Definition site (url : str) : outcome str :=
  if str_eqb url main_url then Ret (py "main page")
  else if str_eqb url nameless_url then Ret (py "nameless page")
  else if str_eqb url symbols_url then Ret (py "symbols page")
  else if str_eqb url empty_url then Ret (py "empty page")
  else if str_eqb url batch_url then Ret (py "batch page")
  else if str_eqb url notes_url then Ret (py "notes page")
  else Raise (py "503 Server Error").

(** [urlparse] on the one link of the site. *)
Definition chapter_parsed : Urllib.ParseResult :=
  {| Urllib.scheme := py "https"; Urllib.netloc := py "site.example";
     Urllib.path := py "/kd/chapter"; Urllib.params := [];
     Urllib.query := py "id=7"; Urllib.fragment := [] |}.

Definition parse (url : str) : outcome Urllib.ParseResult :=
  if str_eqb url chapter_url then Ret chapter_parsed
  else Raise (py "not a URL of the site").

#[local] Instance env : Environment := {|
  requests_get := fun _ url _ => site url;
  os_makedirs := fun _ _ => None;
  open_write := fun _ _ _ => None;
  (* every link of the site is absolute, and [urljoin] returns such a
     link as it is *)
  urljoin := fun _ href => Ret href;
  urlparse := parse;
  soup_batch_items := fun page =>
    if str_eqb page (py "main page") then [physics_item]
    else if str_eqb page (py "nameless page") then [nameless_item]
    else if str_eqb page (py "symbols page") then [symbols_item]
    else [];
  soup_chapter_cards := fun page =>
    if str_eqb page (py "batch page") then [motion_card; plain_card] else [];
  search_int := fun _ => None;
  render_main_index := fun batches =>
    py "batches: " ++ Urllib.join (py ", ") (map batch_name batches);
  render_batch_index := fun batch chapters =>
    py "chapters of " ++ batch_name batch ++ py ": "
      ++ Urllib.join (py ", ") (map chapter_name chapters)
|}.


(** The chapter of [motion_card], and a chapter without a link. *)
Definition motion : Chapter :=
  {| chapter_name := py "Ch 1: Motion"; chapter_link := Some chapter_url;
     chapter_img := []; chapter_stats_of := {| videos := 0; notes := 0 |};
     chapter_folder_name := None |}.

Definition unlinked : Chapter :=
  {| chapter_name := py "Ch 2"; chapter_link := None;
     chapter_img := []; chapter_stats_of := {| videos := 0; notes := 0 |};
     chapter_folder_name := None |}.

(** Two chapters whose names differ by a colon. *)
Definition chapter_A : Chapter :=
  {| chapter_name := py "A"; chapter_link := None;
     chapter_img := []; chapter_stats_of := {| videos := 0; notes := 0 |};
     chapter_folder_name := None |}.

Definition chapter_A_colon : Chapter :=
  {| chapter_name := py "A:"; chapter_link := None;
     chapter_img := []; chapter_stats_of := {| videos := 0; notes := 0 |};
     chapter_folder_name := None |}.

End Example.

(** The same site, mirrored to a disk that refuses every directory. *)
Module ReadOnly.

#[local] Instance env : Environment := {|
  requests_get := fun _ url _ => Example.site url;
  os_makedirs := fun _ _ => Some (py "[Errno 30] Read-only file system");
  open_write := fun _ _ _ => Some (py "[Errno 30] Read-only file system");
  urljoin := fun _ href => Ret href;
  urlparse := Example.parse;
  soup_batch_items := fun page =>
    if str_eqb page (py "main page") then [Example.physics_item] else [];
  soup_chapter_cards := fun page =>
    if str_eqb page (py "batch page")
    then [Example.motion_card; Example.plain_card] else [];
  search_int := fun _ => None;
  render_main_index := fun batches =>
    py "batches: " ++ Urllib.join (py ", ") (map batch_name batches);
  render_batch_index := fun batch chapters =>
    py "chapters of " ++ batch_name batch ++ py ": "
      ++ Urllib.join (py ", ") (map chapter_name chapters)
|}.

End ReadOnly.

(** What [os.path.join] puts before a relative second component. *)
Definition join_prefix (a : str) : str :=
  if negb (truthy a) || endswith_sep a then a else a ++ [SEP].

(** ** Properties of query strings *)



(** The pairs of a dict of lists, key by key. *)
Definition pairs_of (d : Urllib.dict) : list (str * str) :=
  flat_map (fun kv => map (pair (fst kv)) (snd kv)) d.



Definition all_ascii (s : str) : Prop := Forall (fun c => c < 128) s.

(** The characters of a quoted string: safe ones, the percent sign, and
    those that were declared safe. *)
Definition quoted_with (safe : list N) (c : char) : Prop :=
  Urllib.always_safe c = true \/ c = Urllib.PERCENT \/ In c safe.

(** The characters of the result of [quote_plus]. *)
Definition plus_quoted (c : char) : Prop :=
  Urllib.always_safe c = true \/ c = Urllib.PERCENT \/ c = Urllib.PLUS.


(** The properties of the fields that [urlencode] joins. *)
Definition fields_of (fields : list str) (pairs : list (str * str)) : Prop :=
  flat_map Urllib.parse_field fields = pairs /\
  Forall (fun f => ~ In Urllib.AMP f) fields /\
  Forall (fun f => f <> []) fields.

(** All the values of the dict are non-empty strings. *)
Definition values_nonempty (d : Urllib.dict) : Prop :=
  Forall (fun kv => Forall (fun v => v <> []) (snd kv)) d.

(** The keys are distinct and no key has an empty list. *)
Definition dict_wf (d : Urllib.dict) : Prop :=
  NoDup (map fst d) /\ Forall (fun kv => snd kv <> []) d.

Definition add_pair (d : Urllib.dict) (nv : str * str) : Urllib.dict :=
  Urllib.dict_append d (fst nv) (snd nv).

(** A property of all the names and one of all the values of a dict. *)
Definition dict_all (K V : str -> Prop) (d : Urllib.dict) : Prop :=
  Forall (fun kv => K (fst kv) /\ Forall V (snd kv)) d.


(** ** Properties of names *)

(** Two neighbouring characters of [s] are white space. *)
Fixpoint space_run (s : str) : bool :=
  match s with
  | [] => false
  | c1 :: t =>
      match t with
      | [] => false
      | c2 :: _ => (isspace c1 && isspace c2) || space_run t
      end
  end.

Definition starts_with_space (s : str) : bool :=
  match s with
  | [] => false
  | c :: _ => isspace c
  end.

(** A name of 101 characters whose hundredth is a space. *)
Definition long_name : str := repeat 97 99 ++ py " b".

(** ** Further properties *)

(** A name that needs no cleaning: no invalid character, white space only
    as single spaces inside the name, at most 100 characters. *)
Definition safe_name (s : str) : Prop :=
  Forall (fun c => invalid_char c = false) s /\
  Forall (fun c => isspace c = true -> c = SPACE) s /\
  space_run s = false /\
  starts_with_space s = false /\
  rstrip s = s /\
  (List.length s <= 100)%nat.

Unset Implicit Arguments.


(** ** Facts about strings *)

Lemma str_eqb_eq (a b : str) : str_eqb a b = true <-> a = b.
Proof.
  unfold str_eqb. destruct (list_eq_dec N.eq_dec a b); split; congruence.
Qed.

Lemma str_eqb_refl (a : str) : str_eqb a a = true.
Proof. now apply str_eqb_eq. Qed.

Lemma str_eqb_neq (a b : str) : str_eqb a b = false <-> a <> b.
Proof.
  unfold str_eqb. destruct (list_eq_dec N.eq_dec a b); split; congruence.
Qed.

Lemma startswith_app (p s : str) : startswith p (p ++ s) = true.
Proof.
  induction p as [|a p IH]; simpl; [reflexivity|].
  now rewrite N.eqb_refl, IH.
Qed.

Lemma contains_startswith (p s : str) :
  startswith p s = true -> contains p s = true.
Proof. intros H. destruct s; simpl; now rewrite H. Qed.

Lemma contains_app (p a b : str) : contains p (a ++ p ++ b) = true.
Proof.
  induction a as [|c a IH].
  - change ([] ++ p ++ b) with (p ++ b).
    apply contains_startswith, startswith_app.
  - simpl. rewrite IH. apply orb_true_r.
Qed.


(** ** clean_filename: what holds of every name *)

Lemma Forall_sub_spaces (P : char -> Prop) (s : str) (b : bool) :
  P SPACE -> Forall P s -> Forall P (sub_spaces b s).
Proof.
  intros HP H. revert b.
  induction H as [|c s Hc Hs IH]; intros b; simpl; [constructor|].
  destruct (isspace c); [destruct b|]; auto.
Qed.

Lemma Forall_lstrip (P : char -> Prop) (s : str) :
  Forall P s -> Forall P (lstrip s).
Proof.
  induction 1 as [|c s Hc Hs IH]; simpl; [constructor|].
  destruct (isspace c); auto.
Qed.

Lemma Forall_rstrip (P : char -> Prop) (s : str) :
  Forall P s -> Forall P (rstrip s).
Proof.
  induction 1 as [|c s Hc Hs IH]; simpl; [constructor|].
  destruct (rstrip s); [destruct (isspace c)|]; auto.
Qed.

Lemma Forall_firstn (P : char -> Prop) (n : nat) (s : str) :
  Forall P s -> Forall P (firstn n s).
Proof.
  intros H. revert n. induction H; intros [|n]; simpl; auto.
Qed.

Lemma clean_filename_no_invalid (name : str) :
  Forall (fun c => invalid_char c = false) (clean_filename name).
Proof.
  unfold clean_filename, strip, collapse_spaces, remove_invalid.
  apply Forall_firstn, Forall_rstrip, Forall_lstrip, Forall_sub_spaces.
  - reflexivity.
  - apply Forall_forall. intros c Hc. apply filter_In in Hc.
    now apply negb_true_iff.
Qed.

Lemma sub_spaces_no_run (s : str) (b : bool) :
  space_run (sub_spaces b s) = false /\
  (b = true -> starts_with_space (sub_spaces b s) = false).
Proof.
  revert b. induction s as [|c s IH]; intros b; simpl; [now split|].
  destruct (isspace c) eqn:Hc.
  - destruct b.
    + apply IH.
    + destruct (IH true) as [H1 H2]. split; [|discriminate].
      destruct (sub_spaces true s) as [|c0 l] eqn:Hs; [reflexivity|].
      change (space_run (SPACE :: c0 :: l)) with
        ((isspace SPACE && isspace c0) || space_run (c0 :: l)).
      simpl in H2. rewrite (H2 eq_refl), andb_false_r. exact H1.
  - destruct (IH false) as [H1 _]. split.
    + destruct (sub_spaces false s) as [|c0 l]; [reflexivity|].
      change (space_run (c :: c0 :: l)) with
        ((isspace c && isspace c0) || space_run (c0 :: l)).
      rewrite Hc. exact H1.
    + intros _. simpl. exact Hc.
Qed.

Lemma space_run_tail (c : char) (s : str) :
  space_run (c :: s) = false -> space_run s = false.
Proof.
  simpl. destruct s; [reflexivity|].
  intros H. apply orb_false_iff in H. apply H.
Qed.

Lemma space_run_lstrip (s : str) :
  space_run s = false -> space_run (lstrip s) = false.
Proof.
  induction s as [|c s IH]; [reflexivity|]. intros H. simpl lstrip.
  destruct (isspace c); [apply IH; eapply space_run_tail; eassumption | exact H].
Qed.

Lemma rstrip_head (c : char) (s : str) :
  rstrip (c :: s) = [] \/ exists r, rstrip (c :: s) = c :: r.
Proof.
  simpl. destruct (rstrip s); [destruct (isspace c)|]; eauto.
Qed.

Lemma space_run_rstrip (s : str) :
  space_run s = false -> space_run (rstrip s) = false.
Proof.
  induction s as [|c s IH]; [reflexivity|]. intros H.
  pose proof (space_run_tail _ _ H) as Ht. specialize (IH Ht).
  simpl rstrip. destruct (rstrip s) as [|c2 r] eqn:Hr.
  - destruct (isspace c); reflexivity.
  - destruct s as [|c2' s']; [discriminate|].
    destruct (rstrip_head c2' s') as [Hn|[r' Hn]]; rewrite Hn in Hr;
      [discriminate|]. injection Hr as <- <-.
    simpl in H. apply orb_false_iff in H as [H _].
    change (space_run (c :: c2' :: r')) with
      ((isspace c && isspace c2') || space_run (c2' :: r')).
    now rewrite H.
Qed.

Lemma space_run_firstn (n : nat) (s : str) :
  space_run s = false -> space_run (firstn n s) = false.
Proof.
  revert s. induction n as [|n IH]; intros s H; [reflexivity|].
  destruct s as [|c s]; [reflexivity|].
  pose proof (IH s (space_run_tail _ _ H)) as IHs.
  simpl firstn. destruct n as [|n]; [reflexivity|].
  destruct s as [|c2 s]; [reflexivity|].
  simpl in H. apply orb_false_iff in H as [H _].
  change (firstn (S n) (c2 :: s)) with (c2 :: firstn n s) in *.
  change (space_run (c :: c2 :: firstn n s)) with
    ((isspace c && isspace c2) || space_run (c2 :: firstn n s)).
  now rewrite H.
Qed.

Lemma clean_filename_no_space_run (name : str) :
  space_run (clean_filename name) = false.
Proof.
  unfold clean_filename, strip, collapse_spaces.
  apply space_run_firstn, space_run_rstrip, space_run_lstrip, sub_spaces_no_run.
Qed.

Lemma lstrip_no_leading_space (s : str) : starts_with_space (lstrip s) = false.
Proof.
  induction s as [|c s IH]; [reflexivity|]. simpl.
  destruct (isspace c) eqn:Hc; [exact IH | exact Hc].
Qed.

Lemma clean_filename_no_leading_space (name : str) :
  starts_with_space (clean_filename name) = false.
Proof.
  unfold clean_filename, strip.
  pose proof (lstrip_no_leading_space (collapse_spaces (remove_invalid name))) as H.
  destruct (lstrip (collapse_spaces (remove_invalid name))) as [|c s];
    [reflexivity|].
  destruct (rstrip_head c s) as [Hn|[r Hn]]; rewrite Hn; [reflexivity|].
  exact H.
Qed.

Lemma clean_filename_length (name : str) :
  (List.length (clean_filename name) <= 100)%nat.
Proof. unfold clean_filename. apply firstn_le_length. Qed.

(** The three parts of the sanitizer's contract that hold of every name:
    no invalid character, no run of white space, no leading white space,
    at most 100 characters. *)
Lemma clean_filename_safe (name : str) :
  Forall (fun c => invalid_char c = false) (clean_filename name) /\
  space_run (clean_filename name) = false /\
  lstrip (clean_filename name) = clean_filename name /\
  (List.length (clean_filename name) <= 100)%nat.
Proof.
  repeat split.
  - apply clean_filename_no_invalid.
  - apply clean_filename_no_space_run.
  - pose proof (clean_filename_no_leading_space name) as H.
    destruct (clean_filename name) as [|c s]; [reflexivity|].
    simpl in *. now rewrite H.
  - apply clean_filename_length.
Qed.

(** *** Names that the cut does not shorten *)

Lemma sub_spaces_only_space (s : str) (b : bool) :
  Forall (fun c => isspace c = true -> c = SPACE) (sub_spaces b s).
Proof.
  revert b. induction s as [|c s IH]; intros b; cbn [sub_spaces];
    [constructor|].
  destruct (isspace c) eqn:Hc; [destruct b|]; auto.
  constructor; [congruence | apply IH].
Qed.

Lemma sub_spaces_fixed (s : str) :
  forall b,
    space_run s = false ->
    (b = true -> starts_with_space s = false) ->
    Forall (fun c => isspace c = true -> c = SPACE) s ->
    sub_spaces b s = s.
Proof.
  induction s as [|c s IH]; intros b Hrun Hb Hsp; [reflexivity|].
  inversion Hsp as [|? ? Hc Hs]; subst. cbn [sub_spaces].
  pose proof (space_run_tail _ _ Hrun) as Hrun'.
  destruct (isspace c) eqn:Hic.
  - destruct b; [specialize (Hb eq_refl); cbn in Hb; congruence|].
    rewrite (Hc eq_refl). f_equal. apply IH; try assumption.
    intros _. destruct s as [|c2 s]; [reflexivity|].
    cbn [space_run] in Hrun. apply orb_false_iff in Hrun as [Hrun _].
    rewrite Hic in Hrun. exact Hrun.
  - f_equal. apply IH; try assumption. discriminate.
Qed.

Lemma lstrip_fixed (s : str) : starts_with_space s = false -> lstrip s = s.
Proof. destruct s as [|c s]; [reflexivity|]. cbn. now intros ->. Qed.

Lemma rstrip_idem (s : str) : rstrip (rstrip s) = rstrip s.
Proof.
  induction s as [|c s IH]; [reflexivity|]. cbn [rstrip].
  destruct (rstrip s) as [|c2 r] eqn:Hr.
  - destruct (isspace c) eqn:Hc; [reflexivity|]. cbn. now rewrite Hc.
  - cbn [rstrip]. cbn [rstrip] in IH. now rewrite IH.
Qed.

Lemma rstrip_no_leading_space (s : str) :
  starts_with_space s = false -> starts_with_space (rstrip s) = false.
Proof.
  destruct s as [|c s]; [reflexivity|]. intros H.
  destruct (rstrip_head c s) as [Hn|[r Hn]]; rewrite Hn; [reflexivity|].
  exact H.
Qed.

Lemma strip_idem (s : str) : strip (strip s) = strip s.
Proof.
  unfold strip. rewrite (lstrip_fixed (rstrip (lstrip s))).
  - apply rstrip_idem.
  - apply rstrip_no_leading_space, lstrip_no_leading_space.
Qed.

Lemma remove_invalid_fixed (s : str) :
  Forall (fun c => invalid_char c = false) s -> remove_invalid s = s.
Proof.
  unfold remove_invalid. induction 1 as [|c s Hc Hs IH]; [reflexivity|].
  cbn [filter]. now rewrite Hc, IH.
Qed.

(** When the trimmed name has at most 100 characters the cut changes
    nothing: the result is its own trimmed form, and sanitizing it again
    gives it back.  The trailing space of C2 and the second pass of C3
    come from the cut alone. *)
Lemma clean_filename_short (name : str) :
  (List.length (strip (collapse_spaces (remove_invalid name))) <= 100)%nat ->
  clean_filename name = strip (collapse_spaces (remove_invalid name)) /\
  strip (clean_filename name) = clean_filename name /\
  clean_filename (clean_filename name) = clean_filename name.
Proof.
  intros Hlen.
  assert (H1 : clean_filename name
               = strip (collapse_spaces (remove_invalid name)))
    by (unfold clean_filename; now apply firstn_all2).
  split; [exact H1|]. split; [rewrite H1; apply strip_idem|].
  pose proof (clean_filename_no_invalid name) as Hinv.
  pose proof (clean_filename_no_space_run name) as Hrun.
  assert (Hsp : Forall (fun c => isspace c = true -> c = SPACE)
                  (clean_filename name)).
  { unfold clean_filename, strip, collapse_spaces.
    apply Forall_firstn, Forall_rstrip, Forall_lstrip, sub_spaces_only_space. }
  unfold clean_filename at 1.
  rewrite (remove_invalid_fixed _ Hinv).
  unfold collapse_spaces.
  rewrite (sub_spaces_fixed _ false Hrun ltac:(discriminate) Hsp).
  rewrite H1 at 1. rewrite strip_idem, <- H1.
  apply firstn_all2. rewrite H1. exact Hlen.
Qed.

(** C2.  The trimmed form fails: the cut at 100 characters comes after the
    trim, so a name whose hundredth character is a space keeps that space
    at its end.  [long_name] is ninety-nine [a], a space and a [b]; the
    result is the ninety-nine [a] and the space, which [strip] would
    shorten. *)
Theorem clean_filename_trailing_space :
  clean_filename long_name = repeat 97 99 ++ [SPACE] /\
  strip (clean_filename long_name) = repeat 97 99 /\
  strip (clean_filename long_name) <> clean_filename long_name.
Proof.
  assert (H1 : clean_filename long_name = repeat 97 99 ++ [SPACE])
    by (vm_compute; reflexivity).
  assert (H2 : strip (clean_filename long_name) = repeat 97 99)
    by (vm_compute; reflexivity).
  repeat split; try assumption.
  rewrite H2, H1. intros H.
  apply (f_equal (@List.length char)) in H.
  rewrite length_app, repeat_length in H. simpl in H. lia.
Qed.

(** C3.  The sanitizer is not idempotent on [long_name]: the second pass
    trims the space that the cut of the first pass left at the end. *)
Theorem clean_filename_not_idempotent :
  clean_filename (clean_filename long_name) = repeat 97 99 /\
  clean_filename (clean_filename long_name) <> clean_filename long_name.
Proof.
  assert (H1 : clean_filename long_name = repeat 97 99 ++ [SPACE])
    by (vm_compute; reflexivity).
  assert (H2 : clean_filename (clean_filename long_name) = repeat 97 99)
    by (vm_compute; reflexivity).
  split; [assumption|].
  rewrite H2, H1. intros H.
  apply (f_equal (@List.length char)) in H.
  rewrite length_app, repeat_length in H. simpl in H. lia.
Qed.

(** ** Output paths *)

Lemma path_join_relative (a b : str) :
  startswith [SEP] b = false -> path_join a b = join_prefix a ++ b.
Proof.
  intros H. unfold path_join, join_prefix. rewrite H.
  destruct (negb (truthy a) || endswith_sep a); [reflexivity|].
  now rewrite <- app_assoc.
Qed.

Lemma startswith_sep_not_in (b : str) :
  ~ In SEP b -> startswith [SEP] b = false.
Proof.
  destruct b as [|c b]; [reflexivity|]. intros H.
  change (startswith [SEP] (c :: b)) with (N.eqb SEP c && true).
  destruct (N.eqb_spec SEP c) as [Hc|]; [|reflexivity].
  exfalso. apply H. now left.
Qed.

Lemma clean_filename_no_sep (name : str) : ~ In SEP (clean_filename name).
Proof.
  intros H. pose proof (clean_filename_no_invalid name) as HF.
  rewrite Forall_forall in HF. specialize (HF _ H). discriminate.
Qed.

Lemma path_join_clean (a name : str) :
  path_join a (clean_filename name) = join_prefix a ++ clean_filename name.
Proof.
  apply path_join_relative, startswith_sep_not_in, clean_filename_no_sep.
Qed.

Lemma endswith_sep_snoc (a : str) : endswith_sep (a ++ [SEP]) = true.
Proof. unfold endswith_sep. now rewrite rev_app_distr. Qed.

Lemma join_prefix_idem (a : str) : join_prefix (join_prefix a) = join_prefix a.
Proof.
  unfold join_prefix.
  destruct (negb (truthy a) || endswith_sep a) eqn:H.
  - now rewrite H.
  - rewrite endswith_sep_snoc, orb_true_r. reflexivity.
Qed.

(** Joining the empty name gives the directory itself, and a file joined
    to the result is the file of that name in the directory. *)
Lemma path_join_empty (a : str) : path_join a [] = join_prefix a.
Proof. rewrite path_join_relative by reflexivity. apply app_nil_r. Qed.

Lemma path_join_empty_file (a b : str) :
  startswith [SEP] b = false -> path_join (path_join a []) b = path_join a b.
Proof.
  intros H. rewrite path_join_empty.
  rewrite !path_join_relative by assumption. now rewrite join_prefix_idem.
Qed.

(** C5, as the script has it.  The directory of a chapter depends on the
    sanitized name alone: two chapters of a batch get the same directory
    exactly when their names sanitize to the same string, and so do two
    batches under the output root.  Nothing is added to tell them apart. *)
Theorem folder_paths_collide_iff :
  (forall batch_folder c1 c2,
     chapter_folder_path batch_folder c1 = chapter_folder_path batch_folder c2
     <-> clean_filename (chapter_name c1) = clean_filename (chapter_name c2)) /\
  (forall base_dir b1 b2,
     batch_folder_path base_dir b1 = batch_folder_path base_dir b2
     <-> clean_filename (batch_name b1) = clean_filename (batch_name b2)).
Proof.
  split; intros d x y; unfold chapter_folder_path, batch_folder_path;
    rewrite !path_join_clean; split; intros H.
  - eapply app_inv_head; eassumption.
  - now rewrite H.
  - eapply app_inv_head; eassumption.
  - now rewrite H.
Qed.

(** C5, as the specification states it, fails: the chapters named [A] and [A:] are
    two records, their names sanitize to [A], and both get the directory
    [/out/B/A]. *)
Lemma chapters_share_folder :
  Example.chapter_A <> Example.chapter_A_colon /\
  clean_filename (chapter_name Example.chapter_A) =
    clean_filename (chapter_name Example.chapter_A_colon) /\
  chapter_folder_path (py "/out/B") Example.chapter_A = py "/out/B/A" /\
  chapter_folder_path (py "/out/B") Example.chapter_A_colon = py "/out/B/A".
Proof.
  split; [discriminate|]. repeat split; vm_compute; reflexivity.
Qed.

(** ** The fetcher *)

Section Fetcher.

Context {E : Environment}.

Lemma get_page_content_from_step (url : str) (max_retries attempt r : nat)
    (h : history) :
  get_page_content_from url max_retries attempt (S r) h =
  match requests_get h url generate_headers with
  | Ret text =>
      (Ret (Some (Some text, true)), h ++ [Get url generate_headers (Ret text)])
  | Raise e =>
      if (attempt <? max_retries - 1)%nat
      then get_page_content_from url max_retries (S attempt) r
             (h ++ failed_round url attempt e ++ [Sleep 2])
      else (Ret (Some (None, false)), h ++ failed_round url attempt e)
  end.
Proof.
  cbn [get_page_content_from]. unfold try_except, bind, get, ret, print, sleep.
  destruct (requests_get h url generate_headers) as [text|e]; [reflexivity|].
  unfold failed_round.
  destruct (attempt <? max_retries - 1)%nat; rewrite <- !app_assoc; reflexivity.
Qed.

(** The loop from [attempt] on, when [remaining] rounds are left of
    [max_retries]: it returns after at most [remaining] requests, with the
    text of the first that succeeds or with the failure pair when all of
    them failed. *)
Lemma get_page_content_from_spec (url : str) (max_retries : nat) :
  forall remaining attempt h,
    (attempt + S remaining = max_retries)%nat ->
    (exists errs text,
        (List.length errs <= remaining)%nat /\
        get_page_content_from url max_retries attempt (S remaining) h =
          (Ret (Some (Some text, true)),
           h ++ retries url attempt errs ++ [Get url generate_headers (Ret text)]))
    \/
    (exists errs e,
        List.length errs = remaining /\
        get_page_content_from url max_retries attempt (S remaining) h =
          (Ret (Some (None, false)),
           h ++ retries url attempt errs
             ++ failed_round url (attempt + List.length errs) e)).
Proof.
  induction remaining as [|r IH]; intros attempt h Hsum;
    rewrite get_page_content_from_step;
    destruct (requests_get h url generate_headers) as [text|e].
  - left. exists [], text. split; [simpl; lia | reflexivity].
  - right. exists [], e. split; [reflexivity|].
    replace (attempt <? max_retries - 1)%nat with false
      by (symmetry; apply Nat.ltb_ge; lia).
    simpl. now rewrite Nat.add_0_r.
  - left. exists [], text. split; [simpl; lia | reflexivity].
  - replace (attempt <? max_retries - 1)%nat with true
      by (symmetry; apply Nat.ltb_lt; lia).
    destruct (IH (S attempt) (h ++ failed_round url attempt e ++ [Sleep 2]))
      as [(errs & text & Hlen & Heq) | (errs & e' & Hlen & Heq)]; [lia | |].
    + left. exists (e :: errs), text. split; [simpl; lia|].
      rewrite Heq. f_equal. cbn [retries]. now rewrite <- !app_assoc.
    + right. exists (e :: errs), e'. split; [simpl; lia|].
      rewrite Heq. f_equal. cbn [retries List.length].
      rewrite <- !app_assoc. cbn [app].
      now replace (S attempt + List.length errs)%nat
        with (attempt + S (List.length errs))%nat by lia.
Qed.

(** Without any round the loop body never runs: the function ends without
    a [return], and no request is made. *)
Lemma get_page_content_zero (url : str) (h : history) :
  get_page_content url 0 h = (Ret None, h).
Proof. reflexivity. Qed.



End Fetcher.


Section Views.

Context {E : Environment}.

(** [fetch] returns the text of the first request that succeeds, or the
    failure pair after three failed requests. *)
Lemma fetch_cases (url : str) (h : history) :
  (exists errs text,
      (List.length errs < 3)%nat /\
      fetch url h =
        (Ret (Some text, true),
         h ++ retries url 0 errs ++ [Get url generate_headers (Ret text)]))
  \/
  (exists errs e,
      S (List.length errs) = 3%nat /\
      fetch url h =
        (Ret (None, false),
         h ++ retries url 0 errs ++ failed_round url (List.length errs) e)).
Proof.
  unfold fetch, bind, get_page_content.
  destruct (get_page_content_from_spec url 3 2 0 h eq_refl)
    as [(errs & text & Hlen & Heq) | (errs & e & Hlen & Heq)]; rewrite Heq.
  - left. exists errs, text. split; [lia | reflexivity].
  - right. exists errs, e. split; [lia | reflexivity].
Qed.

(** A failed fetch is three failed requests. *)
Lemma fetch_failed (url : str) (h : history) :
  fst (fetch url h) = Ret (None, false) ->
  exists errs e,
    S (List.length errs) = 3%nat /\
    fetch url h =
      (Ret (None, false),
       h ++ retries url 0 errs ++ failed_round url (List.length errs) e).
Proof.
  intros H. destruct (fetch_cases url h)
    as [(errs & text & _ & Heq) | (errs & e & Hlen & Heq)].
  - rewrite Heq in H. discriminate.
  - eauto.
Qed.

Lemma save_html_reliable (text filepath : str) (h : history) :
  reliable_fs E ->
  save_html (Some text) filepath h =
    (Ret true,
     h ++ [Makedirs (dirname filepath) None; WriteFile filepath text None]).
Proof.
  intros [Hm Hw].
  unfold save_html, try_except, bind, makedirs, write_file, ret.
  rewrite Hm, Hw, <- app_assoc. reflexivity.
Qed.

(** [save_html] catches what the file system raises. *)
Lemma save_html_returns (content : option str) (filepath : str) (h : history) :
  exists ok t, save_html content filepath h = (Ret ok, h ++ t).
Proof.
  unfold save_html, try_except, bind, makedirs, write_file, ret, print.
  destruct (os_makedirs h (dirname filepath)) as [e|].
  - eexists _, _. rewrite <- app_assoc. reflexivity.
  - destruct content as [text|].
    + destruct (open_write _ filepath text) as [e|];
        eexists _, _; rewrite <- !app_assoc; reflexivity.
    + eexists _, _. rewrite <- !app_assoc. reflexivity.
Qed.

End Views.

(** ** urllib.parse: quoting and unquoting *)

Lemma N_div_mod_facts (a b : N) :
  b <> 0 -> a = b * (a / b) + a mod b /\ a mod b < b.
Proof. intros H. split; [now apply N.div_mod | now apply N.mod_lt]. Qed.

Ltac pose_div_mod a b :=
  lazymatch goal with
  | _ : a = b * (a / b) + a mod b /\ a mod b < b |- _ => fail
  | _ => pose proof (@N_div_mod_facts a b ltac:(discriminate))
  end.

Ltac div_mod_facts :=
  repeat match goal with
    | |- context [ N.div ?a ?b ] => pose_div_mod a b
    | |- context [ N.modulo ?a ?b ] => pose_div_mod a b
    | H : context [ N.div ?a ?b ] |- _ => pose_div_mod a b
    | H : context [ N.modulo ?a ?b ] |- _ => pose_div_mod a b
    end.

Ltac forget_div_mod :=
  repeat match goal with
    | |- context [ N.div ?a ?b ] => generalize dependent (N.div a b); intros
    | |- context [ N.modulo ?a ?b ] =>
        generalize dependent (N.modulo a b); intros
    | H : context [ N.div ?a ?b ] |- _ =>
        generalize dependent (N.div a b); intros
    | H : context [ N.modulo ?a ?b ] |- _ =>
        generalize dependent (N.modulo a b); intros
    end.

(** Linear arithmetic on [N] with quotients and remainders by constants. *)
Ltac nlia := div_mod_facts; forget_div_mod; lia.

(** Comparisons in hypotheses and goal, from [bool] to [Prop]. *)
Ltac bool_to_prop :=
  repeat match goal with
    | H : (_ || _) = true |- _ => apply orb_true_iff in H
    | H : (_ || _) = false |- _ => apply orb_false_iff in H; destruct H
    | H : (_ && _) = true |- _ => apply andb_true_iff in H; destruct H
    | H : (_ && _) = false |- _ => apply andb_false_iff in H
    | H : negb _ = true |- _ => apply negb_true_iff in H
    | H : negb _ = false |- _ => apply negb_false_iff in H
    | H : (_ <? _) = true |- _ => apply N.ltb_lt in H
    | H : (_ <? _) = false |- _ => apply N.ltb_ge in H
    | H : (_ <=? _) = true |- _ => apply N.leb_le in H
    | H : (_ <=? _) = false |- _ => apply N.leb_gt in H
    | H : (_ =? _) = true |- _ => apply N.eqb_eq in H
    | H : (_ =? _) = false |- _ => apply N.eqb_neq in H
    end.

(** The same, with a case for every disjunction. *)
Ltac bool_cases :=
  bool_to_prop;
  repeat (match goal with H : _ \/ _ |- _ => destruct H end; bool_to_prop).

Module UrllibFacts.
Import Urllib.

Lemma ltb_true (a b : N) : a < b -> (a <? b) = true.
Proof. apply N.ltb_lt. Qed.

Lemma ltb_false (a b : N) : b <= a -> (a <? b) = false.
Proof. apply N.ltb_ge. Qed.

Lemma is_continuation_low6 (x : N) : x < 64 -> is_continuation (0x80 + x) = true.
Proof.
  intros H. unfold is_continuation. apply andb_true_iff.
  split; apply N.leb_le; lia.
Qed.


Lemma some_inj {A} (a b : A) : Some a = Some b -> a = b.
Proof. congruence. Qed.

(** Decoding undoes the encoding of one character. *)
Lemma utf8_decode_encode_char (c : char) (bs rest : list N) :
  utf8_encode_char c = Some bs ->
  utf8_decode (bs ++ rest) = c :: utf8_decode rest.
Proof.
  unfold utf8_encode_char.
  destruct (c <? 0x80) eqn:H1.
  { intros H. apply some_inj in H. subst bs. cbn [app utf8_decode].
    now rewrite H1. }
  destruct (c <? 0x800) eqn:H2.
  { intros H. apply some_inj in H. subst bs. bool_to_prop.
    cbn [app utf8_decode].
    rewrite ltb_false, ltb_false, ltb_true by nlia.
    rewrite is_continuation_low6 by nlia. f_equal. nlia. }
  destruct ((0xD800 <=? c) && (c <=? 0xDFFF)) eqn:H3; [discriminate|].
  destruct (c <? 0x10000) eqn:H4.
  { intros H. apply some_inj in H. subst bs. bool_to_prop.
    cbn [app utf8_decode].
    rewrite ltb_false, ltb_false, ltb_false, ltb_true by nlia.
    rewrite !is_continuation_low6 by nlia. cbn [negb orb].
    replace (if 0x80 + (c / 64) mod 64 <? 0xA0
             then 0xE0 + c / 4096 =? 0xE0 else 0xE0 + c / 4096 =? 0xED)
      with false.
    - f_equal. nlia.
    - symmetry. destruct (0x80 + (c / 64) mod 64 <? 0xA0) eqn:H5;
        bool_to_prop; apply N.eqb_neq; destruct H3; bool_to_prop; nlia. }
  destruct (c <? 0x110000) eqn:H5; [|discriminate].
  intros H. apply some_inj in H. subst bs. bool_to_prop.
  cbn [app utf8_decode].
  rewrite ltb_false, ltb_false, ltb_false, ltb_false, ltb_true by nlia.
  rewrite !is_continuation_low6 by nlia. cbn [negb orb].
  replace (if 0x80 + (c / 4096) mod 64 <? 0x90
           then 0xF0 + c / 262144 =? 0xF0 else 0xF0 + c / 262144 =? 0xF4)
    with false.
  - f_equal. nlia.
  - symmetry. destruct (0x80 + (c / 4096) mod 64 <? 0x90) eqn:H6;
      bool_to_prop; apply N.eqb_neq; nlia.
Qed.

Lemma utf8_decode_encode (s : str) (bs : list N) :
  utf8_encode s = Some bs -> utf8_decode bs = s.
Proof.
  revert bs. induction s as [|c s IH]; intros bs; cbn [utf8_encode].
  - now intros [= <-].
  - destruct (utf8_encode_char c) as [b1|] eqn:Hc; [|discriminate].
    destruct (utf8_encode s) as [b2|]; [|discriminate].
    intros [= <-]. rewrite (utf8_decode_encode_char _ _ _ Hc). f_equal. now apply IH.
Qed.

(** *** Bytes and their quoted form *)

Lemma always_safe_ascii (c : char) : always_safe c = true -> c < 128.
Proof. unfold always_safe. intros H. bool_cases; lia. Qed.

Lemma hex_value_digit (n : N) : n < 16 -> hex_value (hex_digit n) = Some n.
Proof.
  intros H. unfold hex_digit, hex_value.
  destruct (n <? 10) eqn:Hn; bool_to_prop.
  - replace ((48 <=? 48 + n) && (48 + n <=? 57)) with true
      by (symmetry; apply andb_true_iff; split; apply N.leb_le; lia).
    f_equal. lia.
  - replace ((48 <=? 55 + n) && (55 + n <=? 57)) with false
      by (symmetry; apply andb_false_iff; right; apply N.leb_gt; lia).
    replace ((65 <=? 55 + n) && (55 + n <=? 70)) with true
      by (symmetry; apply andb_true_iff; split; apply N.leb_le; lia).
    f_equal. lia.
Qed.

Lemma hex_digit_safe (n : N) : n < 16 -> always_safe (hex_digit n) = true.
Proof.
  intros H. unfold hex_digit, always_safe.
  destruct (n <? 10) eqn:Hn; bool_to_prop.
  - replace ((48 <=? 48 + n) && (48 + n <=? 57)) with true
      by (symmetry; apply andb_true_iff; split; apply N.leb_le; lia).
    now rewrite !orb_true_r.
  - replace ((65 <=? 55 + n) && (55 + n <=? 90)) with true
      by (symmetry; apply andb_true_iff; split; apply N.leb_le; lia).
    reflexivity.
Qed.

Lemma utf8_encode_char_bytes (c : char) (bs : list N) :
  utf8_encode_char c = Some bs -> Forall (fun b => b < 256) bs /\ bs <> [].
Proof.
  unfold utf8_encode_char.
  destruct (c <? 0x80) eqn:H1.
  { intros H. apply some_inj in H. subst bs. bool_to_prop.
    split; [repeat constructor; lia | discriminate]. }
  destruct (c <? 0x800) eqn:H2.
  { intros H. apply some_inj in H. subst bs. bool_to_prop.
    split; [repeat constructor; nlia | discriminate]. }
  destruct ((0xD800 <=? c) && (c <=? 0xDFFF)); [discriminate|].
  destruct (c <? 0x10000) eqn:H4.
  { intros H. apply some_inj in H. subst bs. bool_to_prop.
    split; [repeat constructor; nlia | discriminate]. }
  destruct (c <? 0x110000) eqn:H5; [|discriminate].
  intros H. apply some_inj in H. subst bs. bool_to_prop.
  split; [repeat constructor; nlia | discriminate].
Qed.

Lemma utf8_encode_bytes (s : str) (bs : list N) :
  utf8_encode s = Some bs ->
  Forall (fun b => b < 256) bs /\ (s <> [] -> bs <> []).
Proof.
  revert bs. induction s as [|c s IH]; intros bs; cbn [utf8_encode].
  - intros H. apply some_inj in H. subst bs. split; [constructor | congruence].
  - destruct (utf8_encode_char c) as [b1|] eqn:Hc; [|discriminate].
    destruct (utf8_encode s) as [b2|]; [|discriminate].
    intros H. apply some_inj in H. subst bs.
    destruct (utf8_encode_char_bytes _ _ Hc) as [Hb1 Hne].
    destruct (IH _ eq_refl) as [Hb2 _]. split.
    + apply Forall_app. now split.
    + intros _ Happ. apply app_eq_nil in Happ. now destruct Happ.
Qed.

Lemma quoter_chars (safe : list N) (b : N) :
  b < 256 -> Forall (quoted_with safe) (quoter safe b) /\ quoter safe b <> [].
Proof.
  intros Hb. unfold quoter.
  destruct (always_safe b || existsb (N.eqb b) safe) eqn:Hs.
  - split; [|discriminate]. constructor; [|constructor].
    apply orb_true_iff in Hs as [Hs|Hs]; [now left|].
    right. right. apply existsb_exists in Hs as (x & Hx & Hbx).
    apply N.eqb_eq in Hbx. now subst.
  - split; [|discriminate].
    constructor; [right; now left|].
    constructor; [left; apply hex_digit_safe; nlia|].
    constructor; [left; apply hex_digit_safe; nlia | constructor].
Qed.

Lemma quote_from_bytes_chars (safe bs : list N) :
  Forall (fun b => b < 256) bs ->
  Forall (quoted_with safe) (quote_from_bytes bs safe) /\
  (bs <> [] -> quote_from_bytes bs safe <> []).
Proof.
  unfold quote_from_bytes. induction 1 as [|b bs Hb Hbs IH]; cbn [flat_map].
  - split; [constructor | congruence].
  - destruct (quoter_chars safe _ Hb) as [H1 H2]. split.
    + apply Forall_app. split; [assumption | apply IH].
    + intros _ Happ. apply app_eq_nil in Happ. now destruct Happ.
Qed.

(** Unquoting gives the bytes back. *)
Lemma unquote_to_bytes_quote (safe bs : list N) :
  Forall (fun b => b < 256) bs -> ~ In PERCENT safe ->
  unquote_to_bytes (quote_from_bytes bs safe) = bs.
Proof.
  intros Hbs Hsafe. unfold quote_from_bytes.
  induction Hbs as [|b bs Hb Hbs IH]; [reflexivity|].
  cbn [flat_map]. unfold quoter at 1.
  destruct (always_safe b || existsb (N.eqb b) safe) eqn:Hs.
  - cbn [app unquote_to_bytes].
    replace (b =? PERCENT) with false; [now rewrite IH|].
    symmetry. apply N.eqb_neq. intros ->.
    apply orb_true_iff in Hs as [Hs|Hs]; [discriminate|].
    apply existsb_exists in Hs as (x & Hx & Hbx).
    apply N.eqb_eq in Hbx. subst x. contradiction.
  - cbn [app unquote_to_bytes]. rewrite N.eqb_refl.
    rewrite !hex_value_digit by nlia. rewrite IH. f_equal. nlia.
Qed.

Lemma utf8_decode_ascii (s : str) : all_ascii s -> utf8_decode s = s.
Proof.
  induction 1 as [|c s Hc Hs IH]; [reflexivity|].
  cbn [utf8_decode]. rewrite ltb_true by assumption. now rewrite IH.
Qed.

Lemma unquote_to_bytes_no_percent (s : str) :
  existsb (N.eqb PERCENT) s = false -> unquote_to_bytes s = s.
Proof.
  induction s as [|c s IH]; [reflexivity|]. cbn [existsb].
  intros H. apply orb_false_iff in H as [Hc Hs].
  cbn [unquote_to_bytes]. rewrite N.eqb_sym, Hc. now rewrite IH.
Qed.

Lemma unquote_runs_ascii (s run : str) :
  all_ascii s ->
  unquote_runs run s = utf8_decode (unquote_to_bytes (rev run ++ s)).
Proof.
  intros H. revert run. induction H as [|c s Hc Hs IH]; intros run.
  - cbn [unquote_runs]. now rewrite app_nil_r.
  - cbn [unquote_runs]. rewrite ltb_true by assumption.
    rewrite IH. cbn [rev]. now rewrite <- app_assoc.
Qed.

Lemma unquote_ascii (s : str) :
  all_ascii s -> unquote s = utf8_decode (unquote_to_bytes s).
Proof.
  intros H. unfold unquote.
  destruct (existsb (N.eqb PERCENT) s) eqn:Hp; cbn [negb].
  - now rewrite unquote_runs_ascii.
  - rewrite unquote_to_bytes_no_percent by assumption.
    now rewrite utf8_decode_ascii.
Qed.

Lemma replace_char_absent (a b : char) (s : str) :
  ~ In a s -> replace_char a b s = s.
Proof.
  unfold replace_char. induction s as [|c s IH]; [reflexivity|].
  intros H. cbn [map].
  destruct (N.eqb_spec c a) as [->|]; [exfalso; apply H; now left|].
  rewrite IH; [reflexivity|]. intros Hin. apply H. now right.
Qed.

Lemma replace_char_back (a b : char) (s : str) :
  ~ In b s -> replace_char b a (replace_char a b s) = s.
Proof.
  unfold replace_char. induction s as [|c s IH]; [reflexivity|].
  intros H. cbn [map]. rewrite IH by (intros Hin; apply H; now right).
  f_equal. destruct (N.eqb_spec c a) as [->|Hca].
  - now rewrite N.eqb_refl.
  - destruct (N.eqb_spec c b) as [->|]; [exfalso; apply H; now left|reflexivity].
Qed.

Lemma quoted_ascii (safe : list N) (s : str) :
  all_ascii safe -> Forall (quoted_with safe) s -> all_ascii s.
Proof.
  intros Hsafe. apply Forall_impl. intros c [H|[->|H]].
  - now apply always_safe_ascii.
  - reflexivity.
  - unfold all_ascii in Hsafe. rewrite Forall_forall in Hsafe. now apply Hsafe.
Qed.

Lemma quoted_not_in (safe : list N) (c : char) (s : str) :
  always_safe c = false -> c <> PERCENT -> ~ In c safe ->
  Forall (quoted_with safe) s -> ~ In c s.
Proof.
  intros H1 H2 H3 Hs Hin. rewrite Forall_forall in Hs.
  destruct (Hs _ Hin) as [H|[H|H]]; congruence.
Qed.

(** What [parse_qsl] does to a name or a value undoes [quote_plus]; the
    quoted string has no ampersand and no equals sign, and it is empty
    only for the empty string. *)
Lemma quote_plus_spec (s q : str) :
  quote_plus s = Some q ->
  unquote (replace_char PLUS SPACE q) = s /\
  Forall plus_quoted q /\
  (s <> [] -> q <> []).
Proof.
  unfold quote_plus, quote.
  destruct (utf8_encode s) as [bs|] eqn:Henc;
    [|destruct (negb (existsb (N.eqb SPACE) s)); discriminate].
  destruct (utf8_encode_bytes _ _ Henc) as [Hbytes Hne].
  pose proof (utf8_decode_encode _ _ Henc) as Hdec.
  destruct (negb (existsb (N.eqb SPACE) s)); intros H; apply some_inj in H;
    subst q.
  - destruct (quote_from_bytes_chars [] _ Hbytes) as [Hch Hne'].
    assert (Hascii : all_ascii (quote_from_bytes bs []))
      by (eapply quoted_ascii; [constructor | eassumption]).
    split; [|split].
    + rewrite replace_char_absent
        by (eapply quoted_not_in; [| | |eassumption];
            [reflexivity | discriminate | intros []]).
      rewrite unquote_ascii by assumption.
      rewrite unquote_to_bytes_quote; [assumption | assumption | intros []].
    + eapply Forall_impl; [|exact Hch].
      intros c [H|[H|[]]]; [now left | right; now left].
    + auto.
  - destruct (quote_from_bytes_chars [SPACE] _ Hbytes) as [Hch Hne'].
    assert (Hascii : all_ascii (quote_from_bytes bs [SPACE])).
    { eapply quoted_ascii; [|eassumption]. repeat constructor. }
    split; [|split].
    + rewrite replace_char_back
        by (eapply quoted_not_in; [| | |eassumption];
            [reflexivity | discriminate | intros [|[]]; discriminate]).
      rewrite unquote_ascii by assumption.
      rewrite unquote_to_bytes_quote; [assumption | assumption |].
      intros [|[]]; discriminate.
    + unfold replace_char. apply Forall_map.
      eapply Forall_impl; [|exact Hch].
      intros c [H|[H|[H|[]]]].
      * destruct (N.eqb_spec c SPACE) as [->|]; [discriminate | now left].
      * subst c. right. now left.
      * subst c. right. now right.
    + intros Hs Hq. unfold replace_char in Hq. apply map_eq_nil in Hq.
      exact (Hne' (Hne Hs) Hq).
Qed.

(** *** Splitting and joining *)

Lemma split1_app (sep : char) (a b : str) :
  ~ In sep a -> split1 sep (a ++ sep :: b) = Some (a, b).
Proof.
  induction a as [|c a IH]; intros H; cbn [app split1].
  - now rewrite N.eqb_refl.
  - destruct (N.eqb_spec c sep) as [->|]; [exfalso; apply H; now left|].
    rewrite IH; [reflexivity|]. intros Hin. apply H. now right.
Qed.

Lemma split_whole (sep : char) (a : str) : ~ In sep a -> split sep a = [a].
Proof.
  induction a as [|c a IH]; intros H; cbn [split]; [reflexivity|].
  destruct (N.eqb_spec c sep) as [->|]; [exfalso; apply H; now left|].
  rewrite IH; [reflexivity|]. intros Hin. apply H. now right.
Qed.

Lemma split_app (sep : char) (a b : str) :
  ~ In sep a -> split sep (a ++ sep :: b) = a :: split sep b.
Proof.
  induction a as [|c a IH]; intros H; cbn [app split].
  - now rewrite N.eqb_refl.
  - destruct (N.eqb_spec c sep) as [->|]; [exfalso; apply H; now left|].
    rewrite IH; [reflexivity|]. intros Hin. apply H. now right.
Qed.

Lemma split_join (sep : char) (fields : list str) :
  fields <> [] -> Forall (fun f => ~ In sep f) fields ->
  split sep (join [sep] fields) = fields.
Proof.
  intros Hne H. revert Hne.
  induction H as [|a l Ha Hl IH]; intros Hne; [now elim Hne|].
  destruct l as [|b l].
  - cbn [join]. now apply split_whole.
  - change (join [sep] (a :: b :: l)) with (a ++ sep :: join [sep] (b :: l)).
    rewrite split_app by assumption. f_equal. apply IH. discriminate.
Qed.

Lemma join_nonempty (sep : str) (fields : list str) :
  fields <> [] -> Forall (fun f => f <> []) fields -> join sep fields <> [].
Proof.
  intros Hne H. revert Hne. destruct H as [|a l Ha Hl]; intros Hne;
    [now elim Hne|].
  destruct l; cbn [join]; [assumption|].
  intros Happ. apply app_eq_nil in Happ. now destruct Happ.
Qed.

Lemma sequence_map {A B} (f : A -> option B) (l : list A) (r : list B) :
  sequence (map f l) = Some r -> Forall2 (fun x y => f x = Some y) l r.
Proof.
  revert r. induction l as [|x l IH]; intros r; cbn [map sequence].
  - intros H. apply some_inj in H. subst r. constructor.
  - destruct (f x) as [y|] eqn:Hx; [|discriminate].
    destruct (sequence (map f l)) as [r'|]; [|discriminate].
    intros H. apply some_inj in H. subst r. constructor; auto.
Qed.

Lemma map_sequence {A B} (f : A -> option B) (l : list A) (r : list B) :
  Forall2 (fun x y => f x = Some y) l r -> sequence (map f l) = Some r.
Proof.
  induction 1 as [|x y l r Hxy H IH]; cbn [map sequence]; [reflexivity|].
  now rewrite Hxy, IH.
Qed.

Lemma plus_quoted_not_in (c : char) (q : str) :
  always_safe c = false -> c <> PERCENT -> c <> PLUS ->
  Forall plus_quoted q -> ~ In c q.
Proof.
  intros H1 H2 H3 Hq Hin. rewrite Forall_forall in Hq.
  destruct (Hq _ Hin) as [H|[H|H]]; congruence.
Qed.

(** *** parse_qsl after urlencode *)

(** A field [k=v], with both sides quoted, is read back as [(k, v)]. *)
Lemma parse_field_encoded (k v k' v' : str) :
  quote_plus k = Some k' -> quote_plus v = Some v' -> v <> [] ->
  parse_field (k' ++ EQUALS :: v') = [(k, v)] /\
  ~ In AMP (k' ++ EQUALS :: v') /\
  k' ++ EQUALS :: v' <> [].
Proof.
  intros Hk Hv Hne.
  destruct (quote_plus_spec _ _ Hk) as (Hk1 & Hk2 & _).
  destruct (quote_plus_spec _ _ Hv) as (Hv1 & Hv2 & Hv3).
  split; [|split].
  - unfold parse_field.
    replace (truthy (k' ++ EQUALS :: v')) with true by (now destruct k').
    cbn [negb]. rewrite split1_app
      by (eapply plus_quoted_not_in; [| | |eassumption];
          [reflexivity | discriminate | discriminate]).
    destruct v' as [|c v']; [now elim (Hv3 Hne)|].
    cbn [truthy]. now rewrite Hk1, Hv1.
  - intros Hin. apply in_app_or in Hin as [Hin|[Hin|Hin]].
    + revert Hin. eapply plus_quoted_not_in; [| | |eassumption];
        [reflexivity | discriminate | discriminate].
    + discriminate.
    + revert Hin. eapply plus_quoted_not_in; [| | |eassumption];
        [reflexivity | discriminate | discriminate].
  - now destruct k'.
Qed.

Lemma fields_of_app (f1 f2 : list str) (p1 p2 : list (str * str)) :
  fields_of f1 p1 -> fields_of f2 p2 -> fields_of (f1 ++ f2) (p1 ++ p2).
Proof.
  intros (A1 & B1 & C1) (A2 & B2 & C2). split; [|split].
  - rewrite flat_map_app. congruence.
  - apply Forall_app. now split.
  - apply Forall_app. now split.
Qed.

Lemma encode_values_fields (k k' : str) (vs : list str) (fields : list str) :
  quote_plus k = Some k' ->
  Forall (fun v => v <> []) vs ->
  encode_values k' vs = Some fields ->
  fields_of fields (map (pair k) vs).
Proof.
  intros Hk Hvs H. unfold encode_values in H. apply sequence_map in H.
  induction H as [|v f vs fields Hvf H IH].
  - repeat split; constructor.
  - inversion Hvs as [|? ? Hv Hvs']; subst.
    destruct (quote_plus v) as [v'|] eqn:Hqv; [|discriminate].
    apply some_inj in Hvf. subst f.
    destruct (parse_field_encoded _ _ _ _ Hk Hqv Hv) as (P1 & P2 & P3).
    apply (fields_of_app [k' ++ EQUALS :: v'] _ [(k, v)]).
    + split; [|split]; [|now constructor|now constructor].
      cbn [flat_map]. now rewrite P1.
    + now apply IH.
Qed.

Lemma urlencode_fields (d : dict) (l : list (list str)) :
  values_nonempty d ->
  sequence (map encode_item d) = Some l ->
  fields_of (List.concat l) (pairs_of d).
Proof.
  intros Hd H. apply sequence_map in H. unfold pairs_of.
  induction H as [|[k vs] fields d l Hkf H IH]; cbn [List.concat flat_map].
  - repeat split; constructor.
  - inversion Hd as [|? ? Hvs Hd']; subst.
    unfold encode_item in Hkf. cbn [fst snd] in *.
    destruct (quote_plus k) as [k'|] eqn:Hk; [|discriminate].
    apply fields_of_app; [|now apply IH].
    eapply encode_values_fields; eassumption.
Qed.

(** [parse_qsl] reads back the pairs that [urlencode] wrote. *)
Lemma parse_qsl_urlencode (d : dict) (q : str) :
  values_nonempty d -> urlencode d = Some q -> parse_qsl q = pairs_of d.
Proof.
  intros Hd. unfold urlencode.
  destruct (sequence (map encode_item d)) as [l|] eqn:Hl; [|discriminate].
  intros H. apply some_inj in H. subst q.
  destruct (urlencode_fields _ _ Hd Hl) as (H1 & H2 & H3).
  unfold parse_qsl. destruct (List.concat l) as [|f fields] eqn:Hf.
  - cbn [join truthy]. now rewrite <- H1.
  - assert (Hne : f :: fields <> []) by discriminate.
    pose proof (join_nonempty [AMP] _ Hne H3) as Hj.
    destruct (join [AMP] (f :: fields)) as [|c j] eqn:Hjoin; [congruence|].
    cbn [truthy]. rewrite <- Hjoin, split_join by assumption. exact H1.
Qed.

(** *** Dicts *)

Lemma dict_append_fresh (d : dict) (k v : str) :
  ~ In k (map fst d) -> dict_append d k v = d ++ [(k, [v])].
Proof.
  induction d as [|[k' vs] d IH]; intros H; cbn [dict_append app];
    [reflexivity|].
  destruct (str_eqb k k') eqn:Hk.
  - apply str_eqb_eq in Hk. subst k'. exfalso. apply H. now left.
  - rewrite IH; [reflexivity|]. intros Hin. apply H. now right.
Qed.

Lemma dict_append_last (d : dict) (k v : str) (vs : list str) :
  ~ In k (map fst d) ->
  dict_append (d ++ [(k, vs)]) k v = d ++ [(k, vs ++ [v])].
Proof.
  induction d as [|[k' vs'] d IH]; intros H; cbn [dict_append app].
  - now rewrite str_eqb_refl.
  - destruct (str_eqb k k') eqn:Hk.
    + apply str_eqb_eq in Hk. subst k'. exfalso. apply H. now left.
    + rewrite IH; [reflexivity|]. intros Hin. apply H. now right.
Qed.

Lemma fold_more_values (d : dict) (k : str) (vs l : list str) :
  ~ In k (map fst d) ->
  fold_left add_pair (map (pair k) vs) (d ++ [(k, l)]) = d ++ [(k, l ++ vs)].
Proof.
  intros H. revert l. induction vs as [|v vs IH]; intros l; cbn [map fold_left].
  - now rewrite app_nil_r.
  - unfold add_pair at 2. cbn [fst snd].
    rewrite dict_append_last by assumption. rewrite IH.
    now rewrite <- app_assoc.
Qed.

Lemma fold_values (d : dict) (k : str) (vs : list str) :
  ~ In k (map fst d) -> vs <> [] ->
  fold_left add_pair (map (pair k) vs) d = d ++ [(k, vs)].
Proof.
  intros H Hne. destruct vs as [|v vs]; [now elim Hne|].
  cbn [map fold_left]. unfold add_pair at 2. cbn [fst snd].
  rewrite dict_append_fresh by assumption.
  now rewrite fold_more_values.
Qed.

(** Reading the pairs of a well-formed dict one by one builds it again. *)
Lemma fold_pairs_of (d acc : dict) :
  NoDup (map fst acc ++ map fst d) ->
  Forall (fun kv => snd kv <> []) d ->
  fold_left add_pair (pairs_of d) acc = acc ++ d.
Proof.
  revert acc. induction d as [|[k vs] d IH]; intros acc Hnd Hne.
  - cbn. now rewrite app_nil_r.
  - inversion Hne as [|? ? Hvs Hne']; subst. cbn [snd] in Hvs.
    unfold pairs_of. cbn [flat_map fst snd]. rewrite fold_left_app.
    cbn [map] in Hnd.
    assert (Hk : ~ In k (map fst acc)).
    { intros Hin. apply NoDup_remove_2 in Hnd. apply Hnd.
      apply in_or_app. now left. }
    rewrite fold_values by assumption.
    change (flat_map (fun kv => map (pair (fst kv)) (snd kv)) d)
      with (pairs_of d).
    rewrite IH; [now rewrite <- app_assoc | | assumption].
    rewrite map_app, <- app_assoc. exact Hnd.
Qed.

Lemma parse_qs_fold (qs : str) :
  parse_qs qs = fold_left add_pair (parse_qsl qs) [].
Proof. reflexivity. Qed.

(** [parse_qs] reads back the dict that [urlencode] wrote. *)
Lemma parse_qs_urlencode (d : dict) (q : str) :
  dict_wf d -> values_nonempty d -> urlencode d = Some q -> parse_qs q = d.
Proof.
  intros [Hnd Hne] Hv Hq. rewrite parse_qs_fold.
  rewrite (parse_qsl_urlencode _ _ Hv Hq).
  now rewrite fold_pairs_of.
Qed.

Lemma dict_append_keys (d : dict) (k v x : str) :
  In x (map fst (dict_append d k v)) <-> In x (map fst d) \/ x = k.
Proof.
  induction d as [|[k' vs] d IH]; cbn [dict_append map fst In].
  - intuition.
  - destruct (str_eqb k k') eqn:Hk; cbn [map fst In].
    + apply str_eqb_eq in Hk. subst k'. intuition.
    + rewrite IH. intuition.
Qed.

Lemma dict_set_keys (d : dict) (k x : str) (vs : list str) :
  In x (map fst (dict_set d k vs)) <-> In x (map fst d) \/ x = k.
Proof.
  induction d as [|[k' vs'] d IH]; cbn [dict_set map fst In].
  - intuition.
  - destruct (str_eqb k k') eqn:Hk; cbn [map fst In].
    + apply str_eqb_eq in Hk. subst k'. intuition.
    + rewrite IH. intuition.
Qed.

Lemma dict_append_wf (d : dict) (k v : str) :
  dict_wf d -> dict_wf (dict_append d k v).
Proof.
  intros [Hnd Hne]. induction d as [|[k' vs] d IH]; cbn [dict_append].
  - split; repeat constructor; [intros [] | discriminate].
  - inversion Hnd as [|? ? Hk' Hnd']; subst.
    inversion Hne as [|? ? Hvs Hne']; subst.
    destruct (str_eqb k k') eqn:Hk.
    + split; [exact Hnd|]. constructor; [|assumption].
      cbn [snd]. now destruct vs.
    + destruct (IH Hnd' Hne') as [IH1 IH2]. split.
      * cbn [map fst]. constructor; [|assumption].
        rewrite dict_append_keys. intros [Hin|Heq]; [contradiction|].
        apply str_eqb_neq in Hk. congruence.
      * now constructor.
Qed.

Lemma dict_set_wf (d : dict) (k : str) (vs : list str) :
  vs <> [] -> dict_wf d -> dict_wf (dict_set d k vs).
Proof.
  intros Hvs [Hnd Hne]. induction d as [|[k' vs'] d IH]; cbn [dict_set].
  - split; repeat constructor; [intros [] | assumption].
  - inversion Hnd as [|? ? Hk' Hnd']; subst.
    inversion Hne as [|? ? Hvs' Hne']; subst.
    destruct (str_eqb k k') eqn:Hk.
    + split; [exact Hnd|]. now constructor.
    + destruct (IH Hnd' Hne') as [IH1 IH2]. split.
      * cbn [map fst]. constructor; [|assumption].
        rewrite dict_set_keys. intros [Hin|Heq]; [contradiction|].
        apply str_eqb_neq in Hk. congruence.
      * now constructor.
Qed.

Lemma dict_append_all (K V : str -> Prop) (d : dict) (k v : str) :
  K k -> V v -> dict_all K V d -> dict_all K V (dict_append d k v).
Proof.
  intros Hk Hv. induction 1 as [|[k' vs] d [H1 H2] Hd IH]; cbn [dict_append].
  - repeat constructor; assumption.
  - destruct (str_eqb k k').
    + constructor; [|assumption]. split; [assumption|].
      apply Forall_app. split; [assumption | now constructor].
    + constructor; [now split | assumption].
Qed.

Lemma dict_set_all (K V : str -> Prop) (d : dict) (k : str) (vs : list str) :
  K k -> Forall V vs -> dict_all K V d -> dict_all K V (dict_set d k vs).
Proof.
  intros Hk Hv. induction 1 as [|[k' vs'] d [H1 H2] Hd IH]; cbn [dict_set].
  - repeat constructor; assumption.
  - destruct (str_eqb k k').
    + constructor; [now split | assumption].
    + constructor; [now split | assumption].
Qed.

Lemma dict_all_values (K V : str -> Prop) (d : dict) :
  dict_all K V d -> Forall (fun kv => Forall V (snd kv)) d.
Proof. apply Forall_impl. now intros kv [_ H]. Qed.

Lemma fold_add_pair_wf (pairs : list (str * str)) (d : dict) :
  dict_wf d -> dict_wf (fold_left add_pair pairs d).
Proof.
  revert d. induction pairs as [|[k v] pairs IH]; intros d H; cbn [fold_left];
    [assumption|].
  apply IH. now apply dict_append_wf.
Qed.

Lemma fold_add_pair_all (K V : str -> Prop) (pairs : list (str * str))
    (d : dict) :
  Forall (fun nv => K (fst nv) /\ V (snd nv)) pairs ->
  dict_all K V d -> dict_all K V (fold_left add_pair pairs d).
Proof.
  intros H. revert d.
  induction H as [|[k v] pairs [Hk Hv] Hp IH]; intros d Hd; cbn [fold_left];
    [assumption|].
  apply IH. now apply dict_append_all.
Qed.

Lemma parse_qs_wf (qs : str) : dict_wf (parse_qs qs).
Proof.
  rewrite parse_qs_fold. apply fold_add_pair_wf. split; constructor.
Qed.

Lemma parse_qs_all (K V : str -> Prop) (qs : str) :
  Forall (fun nv => K (fst nv) /\ V (snd nv)) (parse_qsl qs) ->
  dict_all K V (parse_qs qs).
Proof.
  intros H. rewrite parse_qs_fold. apply fold_add_pair_all; [assumption|].
  constructor.
Qed.

Lemma dict_get_set_same (d : dict) (k : str) (vs : list str) :
  dict_get (dict_set d k vs) k = Some vs.
Proof.
  induction d as [|[k' vs'] d IH]; cbn [dict_set dict_get].
  - now rewrite str_eqb_refl.
  - destruct (str_eqb k k') eqn:Hk; cbn [dict_get]; now rewrite Hk.
Qed.


(** *** Non-empty values *)

Lemma unquote_to_bytes_nonempty (s : str) :
  s <> [] -> unquote_to_bytes s <> [].
Proof.
  destruct s as [|c s]; [congruence|]. intros _. cbn [unquote_to_bytes].
  destruct (c =? PERCENT); [|discriminate].
  destruct s as [|h1 [|h2 s]]; try discriminate.
  destruct (hex_value h1); [destruct (hex_value h2)|]; discriminate.
Qed.

Lemma utf8_decode_nonempty (bs : list N) : bs <> [] -> utf8_decode bs <> [].
Proof.
  destruct bs as [|b1 r1]; [congruence|]. intros _. cbn [utf8_decode].
  repeat match goal with
         | |- context [if ?c then _ else _] => destruct c
         | |- context [match ?l with [] => _ | _ :: _ => _ end] => destruct l
         end; discriminate.
Qed.

Lemma unquote_runs_nonempty (s run : str) :
  run <> [] \/ s <> [] -> unquote_runs run s <> [].
Proof.
  revert run. induction s as [|c s IH]; intros run H; cbn [unquote_runs].
  - destruct H as [H|H]; [|congruence].
    apply utf8_decode_nonempty, unquote_to_bytes_nonempty.
    intros Hr. apply H. apply (f_equal (@rev char)) in Hr.
    now rewrite rev_involutive in Hr.
  - destruct (c <? 128).
    + apply IH. left. discriminate.
    + intros Happ. apply app_eq_nil in Happ. now destruct Happ.
Qed.

Lemma unquote_nonempty (s : str) : s <> [] -> unquote s <> [].
Proof.
  intros H. unfold unquote.
  destruct (negb (existsb (N.eqb PERCENT) s)); [assumption|].
  apply unquote_runs_nonempty. now right.
Qed.

Lemma parse_field_values (f : str) :
  Forall (fun nv => snd nv <> []) (parse_field f).
Proof.
  unfold parse_field. destruct (negb (truthy f)); [constructor|].
  destruct (split1 EQUALS f) as [[n v]|]; [|constructor].
  destruct v as [|c v]; cbn [truthy]; [constructor|].
  constructor; [|constructor]. cbn [snd].
  apply unquote_nonempty. discriminate.
Qed.

Lemma Forall_flat_map {A B} (P : B -> Prop) (f : A -> list B) (l : list A) :
  (forall x, In x l -> Forall P (f x)) -> Forall P (flat_map f l).
Proof.
  induction l as [|x l IH]; intros H; cbn [flat_map]; [constructor|].
  apply Forall_app. split; [apply H; now left|].
  apply IH. intros y Hy. apply H. now right.
Qed.

Lemma parse_qs_values_nonempty (qs : str) : values_nonempty (parse_qs qs).
Proof.
  apply (dict_all_values (fun _ => True)). apply parse_qs_all.
  unfold parse_qsl. apply Forall_flat_map. intros f _.
  eapply Forall_impl; [|apply parse_field_values]. now intros nv H.
Qed.

(** *** What can be encoded *)
















(** *** The converse: what was encoded could be *)






End UrllibFacts.

(** ** The URL of a view *)

Section ViewUrl.

Context {E : Environment}.

Import Urllib.





End ViewUrl.



(** ** The views of a chapter *)

Section ChapterViews.

Context {E : Environment}.

(** Without a link a view is its folder and nothing more. *)
Lemma create_view_without_link (chapter : Chapter) (folder : str)
    (name view : string) (h : history) :
  link_truthy (chapter_link chapter) = false ->
  create_view chapter folder name view h =
    makedirs (path_join folder (py name)) h.
Proof.
  intros Hl. unfold create_view, bind, makedirs, ret. rewrite Hl.
  destruct (os_makedirs h (path_join folder (py name))); reflexivity.
Qed.

Lemma create_chapter_views_unlinked (chapter : Chapter) (folder : str)
    (h : history) :
  link_truthy (chapter_link chapter) = false ->
  create_chapter_views chapter folder h =
    match os_makedirs h (path_join folder (py "Lectures")) with
    | Some e =>
        (Raise e, h ++ [Makedirs (path_join folder (py "Lectures")) (Some e)])
    | None =>
        match os_makedirs
                (h ++ [Makedirs (path_join folder (py "Lectures")) None])
                (path_join folder (py "Notes")) with
        | Some e =>
            (Raise e,
             h ++ [Makedirs (path_join folder (py "Lectures")) None;
                   Makedirs (path_join folder (py "Notes")) (Some e)])
        | None =>
            (Ret tt,
             h ++ [Makedirs (path_join folder (py "Lectures")) None;
                   Makedirs (path_join folder (py "Notes")) None])
        end
    end.
Proof.
  intros Hl. unfold create_chapter_views, bind.
  rewrite create_view_without_link by assumption.
  unfold makedirs at 1.
  destruct (os_makedirs h (path_join folder (py "Lectures"))) as [e|];
    [reflexivity|].
  rewrite create_view_without_link by assumption. unfold makedirs.
  destruct (os_makedirs _ (path_join folder (py "Notes"))) as [e|];
    now rewrite <- app_assoc.
Qed.

(** C8.  For a chapter without a link (none was found, or an empty one)
    [create_chapter_views] does nothing but create directories: every
    event is the creation of the Lectures or of the Notes folder, so no
    page is fetched and no file is written.  When the file system accepts
    the two, both folders are created and the function returns. *)
Theorem create_chapter_views_without_link (chapter : Chapter) (folder : str)
    (h : history) :
  link_truthy (chapter_link chapter) = false ->
  (exists t,
      snd (create_chapter_views chapter folder h) = h ++ t /\
      Forall (fun ev => exists r,
                  ev = Makedirs (path_join folder (py "Lectures")) r \/
                  ev = Makedirs (path_join folder (py "Notes")) r) t) /\
  (os_makedirs h (path_join folder (py "Lectures")) = None ->
   os_makedirs (h ++ [Makedirs (path_join folder (py "Lectures")) None])
     (path_join folder (py "Notes")) = None ->
   create_chapter_views chapter folder h =
     (Ret tt,
      h ++ [Makedirs (path_join folder (py "Lectures")) None;
            Makedirs (path_join folder (py "Notes")) None])).
Proof.
  intros Hl. rewrite (create_chapter_views_unlinked chapter folder h Hl).
  destruct (os_makedirs h (path_join folder (py "Lectures"))) as [e|].
  - split; [|discriminate]. eexists. split; [reflexivity|].
    repeat constructor. eauto.
  - destruct (os_makedirs _ (path_join folder (py "Notes"))) as [e|].
    + split; [|discriminate]. eexists. split; [reflexivity|].
      repeat constructor; eauto.
    + split; [|reflexivity]. eexists. split; [reflexivity|].
      repeat constructor; eauto.
Qed.



End ChapterViews.

Lemma create_chapter_views_without_link_witness :
  link_truthy (chapter_link Example.unlinked) = false /\
  @create_chapter_views Example.env Example.unlinked (py "/out/B/Ch 2") [] =
    (Ret tt,
     [Makedirs (py "/out/B/Ch 2/Lectures") None;
      Makedirs (py "/out/B/Ch 2/Notes") None]).
Proof.
  split; [reflexivity|].
  apply (@create_chapter_views_without_link Example.env Example.unlinked
           (py "/out/B/Ch 2") [] eq_refl); reflexivity.
Defined.

Lemma example_reliable_fs : reliable_fs Example.env.
Proof. split; reflexivity. Qed.


(** ** Extraction *)

Section Extraction.

Context {E : Environment}.

Lemma batch_records_cons (main_url : str) (item : BatchItem)
    (items : list BatchItem) :
  batch_records main_url (item :: items) =
    match extract_batch main_url item with
    | Ret (Some b) => [b]
    | _ => []
    end ++ batch_records main_url items.
Proof. reflexivity. Qed.

Lemma batch_warnings_cons (main_url : str) (item : BatchItem)
    (items : list BatchItem) :
  batch_warnings main_url (item :: items) =
    match extract_batch main_url item with
    | Raise e => [Print (py "Error processing batch: " ++ e)]
    | Ret _ => []
    end ++ batch_warnings main_url items.
Proof. reflexivity. Qed.

(** The loop over the items never raises: it collects the records and
    prints a line for each item whose body raised. *)
Lemma extract_batches_loop_spec (main_url : str) (items : list BatchItem) :
  forall batches h,
    extract_batches_loop main_url items batches h =
      (Ret (batches ++ batch_records main_url items),
       h ++ batch_warnings main_url items).
Proof.
  induction items as [|item items IH]; intros batches h.
  - cbn. now rewrite !app_nil_r.
  - cbn [extract_batches_loop].
    rewrite batch_records_cons, batch_warnings_cons.
    unfold bind at 1. unfold try_except, bind, lift, ret, print.
    destruct (extract_batch main_url item) as [[b|]|e]; rewrite IH;
      cbn [app]; rewrite <- ?app_assoc; reflexivity.
Qed.

Lemma extract_batches_cases (main_url : str) (h : history) :
  (exists errs text,
      (List.length errs < 3)%nat /\
      extract_batches main_url h =
        (Ret (batch_records main_url (soup_batch_items text)),
         h ++ Print (py "Fetching batches from: " ++ main_url)
           :: retries main_url 0 errs
           ++ Get main_url generate_headers (Ret text)
           :: batch_warnings main_url (soup_batch_items text)))
  \/
  (exists errs e,
      S (List.length errs) = 3%nat /\
      extract_batches main_url h =
        (Ret [],
         h ++ Print (py "Fetching batches from: " ++ main_url)
           :: retries main_url 0 errs
           ++ failed_round main_url (List.length errs) e)).
Proof.
  unfold extract_batches, bind, print.
  destruct (fetch_cases main_url
              (h ++ [Print (py "Fetching batches from: " ++ main_url)]))
    as [(errs & text & Hlen & Heq) | (errs & e & Hlen & Heq)]; rewrite Heq.
  - left. exists errs, text. split; [assumption|]. cbn [negb].
    rewrite extract_batches_loop_spec. cbn [app].
    f_equal. rewrite <- !app_assoc. reflexivity.
  - right. exists errs, e. split; [assumption|]. cbn [negb]. unfold ret.
    f_equal. rewrite <- !app_assoc. reflexivity.
Qed.

(** What the body of the loop does with one item. *)
Lemma extract_batch_cases (main_url : str) (item : BatchItem) :
  match batch_item_href item with
  | None => extract_batch main_url item = Ret None
  | Some href =>
      (exists link img,
          urljoin main_url href = Ret link /\
          extract_batch main_url item =
            Ret (Some {| batch_name := batch_item_name item;
                         batch_link := link;
                         batch_img := img;
                         batch_folder_name := None |}))
      \/ (exists e, extract_batch main_url item = Raise e)
  end.
Proof.
  unfold batch_item_href, extract_batch.
  destruct (study_btn item) as [link_elem|]; [|reflexivity].
  destruct (attrs_get (attrs link_elem) (py "href")) as [href|]; [|reflexivity].
  destruct (urljoin main_url href) as [link|e]; [|right; eauto].
  destruct (image_src main_url (batch_image item)) as [img|e]; [|right; eauto].
  left. eauto.
Qed.

Lemma retries_no_fs (url : str) (errs : list exn) (attempt : nat) :
  Forall (fun ev => is_fs_event ev = false) (retries url attempt errs).
Proof.
  revert attempt. induction errs as [|e errs IH]; intros attempt;
    cbn [retries failed_round app]; repeat constructor. apply IH.
Qed.

Lemma batch_warnings_no_fs (main_url : str) (items : list BatchItem) :
  Forall (fun ev => is_fs_event ev = false) (batch_warnings main_url items).
Proof.
  unfold batch_warnings. apply UrllibFacts.Forall_flat_map. intros item _.
  destruct (extract_batch main_url item); repeat constructor.
Qed.

(** [extract_batches] returns, and touches no file and no directory. *)
Lemma extract_batches_no_fs (main_url : str) (h : history) :
  exists batches t,
    extract_batches main_url h = (Ret batches, h ++ t) /\
    Forall (fun ev => is_fs_event ev = false) t.
Proof.
  destruct (extract_batches_cases main_url h)
    as [(errs & text & _ & Heq) | (errs & e & _ & Heq)];
    rewrite Heq; eexists _, _; (split; [reflexivity|]).
  - constructor; [reflexivity|]. apply Forall_app. split.
    + apply retries_no_fs.
    + constructor; [reflexivity | apply batch_warnings_no_fs].
  - constructor; [reflexivity|]. apply Forall_app. split.
    + apply retries_no_fs.
    + repeat constructor.
Qed.

(** C4, as the script has it.  [extract_batches] returns the records of
    the items of the fetched page, or the empty list when the fetch
    failed.  An item yields a record exactly when it has a study link with
    an [href] (and no [urljoin] raises for it); the name of the record is
    the data attribute, else the stripped text of the title element, else
    the empty string.  An item without a name is not skipped and nothing
    is printed for it: a line is printed only for an item whose body
    raised.  So every record has the link of its item, and its name may
    be empty. *)
Theorem extract_batches_records (main_url : str) (h : history) :
  ((exists errs text,
       (List.length errs < 3)%nat /\
       extract_batches main_url h =
         (Ret (batch_records main_url (soup_batch_items text)),
          h ++ Print (py "Fetching batches from: " ++ main_url)
            :: retries main_url 0 errs
            ++ Get main_url generate_headers (Ret text)
            :: batch_warnings main_url (soup_batch_items text)))
   \/
   (exists errs e,
       S (List.length errs) = 3%nat /\
       extract_batches main_url h =
         (Ret [],
          h ++ Print (py "Fetching batches from: " ++ main_url)
            :: retries main_url 0 errs
            ++ failed_round main_url (List.length errs) e))) /\
  (forall items b,
     In b (batch_records main_url items) <->
     exists item, In item items /\ extract_batch main_url item = Ret (Some b)) /\
  (forall items msg,
     In (Print msg) (batch_warnings main_url items) <->
     exists item e, In item items /\ extract_batch main_url item = Raise e /\
                    msg = py "Error processing batch: " ++ e) /\
  (forall item,
     match batch_item_href item with
     | None => extract_batch main_url item = Ret None
     | Some href =>
         (exists link img,
             urljoin main_url href = Ret link /\
             extract_batch main_url item =
               Ret (Some {| batch_name := batch_item_name item;
                            batch_link := link;
                            batch_img := img;
                            batch_folder_name := None |}))
         \/ (exists e, extract_batch main_url item = Raise e)
     end) /\
  (forall item,
     tag_get (batch_div item) (py "data-batch-name") = [] ->
     batch_title item = None -> batch_item_name item = []).
Proof.
  split; [apply extract_batches_cases|].
  split; [|split; [|split; [apply extract_batch_cases|]]].
  - intros items b. unfold batch_records. rewrite in_flat_map.
    split; intros (item & Hin & H); exists item; (split; [assumption|]).
    + destruct (extract_batch main_url item) as [[b'|]|e]; try now destruct H.
      destruct H as [->|[]]. reflexivity.
    + rewrite H. now left.
  - intros items msg. unfold batch_warnings. rewrite in_flat_map. split.
    + intros (item & Hin & H).
      destruct (extract_batch main_url item) as [o|e] eqn:He; [destruct H|].
      destruct H as [H|[]]. injection H as <-. eauto.
    + intros (item & e & Hin & He & ->). exists item. split; [assumption|].
      rewrite He. now left.
  - intros item Hattr Htitle. unfold batch_item_name.
    now rewrite Hattr, Htitle.
Qed.

End Extraction.

(** C4, as the specification states it, fails: the listing page of [nameless_url] has
    one item, without the data attribute and without a title element but
    with a study link; [extract_batches] returns one record for it, whose
    name is empty, and prints nothing but its first line. *)
Lemma nameless_item_yields_record :
  @extract_batches Example.env Example.nameless_url [] =
    (Ret [{| batch_name := []; batch_link := Example.batch_url;
             batch_img := []; batch_folder_name := None |}],
     [Print (py "Fetching batches from: " ++ Example.nameless_url);
      Get Example.nameless_url generate_headers (Ret (py "nameless page"))]).
Proof. vm_compute. reflexivity. Qed.

Lemma extract_batches_records_witness :
  batch_item_name Example.nameless_item = [] /\
  In {| batch_name := []; batch_link := Example.batch_url;
        batch_img := []; batch_folder_name := None |}
     (@batch_records Example.env Example.nameless_url [Example.nameless_item]).
Proof.
  destruct (@extract_batches_records Example.env Example.nameless_url [])
    as (_ & Hrec & _ & _ & Hname).
  split; [apply Hname; reflexivity|].
  apply Hrec. exists Example.nameless_item. split; [now left | reflexivity].
Defined.

(** ** The run *)

Section Run.

Context {E : Environment}.

(** C9.  When [extract_batches] returns no record, [create_batch_structure]
    prints one line and returns: nothing is raised, and from its start to
    its end no directory is created and no file is written, so there is no
    root index page and no batch is processed. *)
Theorem create_batch_structure_no_batches (main_url base_dir : str)
    (h h1 : history) :
  extract_batches main_url h = (Ret [], h1) ->
  create_batch_structure main_url base_dir h =
    (Ret tt, h1 ++ [Print (py "No batches found!")]) /\
  exists t,
    h1 ++ [Print (py "No batches found!")] = h ++ t /\
    Forall (fun ev => is_fs_event ev = false) t.
Proof.
  intros Hex. split.
  - unfold create_batch_structure, bind. rewrite Hex. reflexivity.
  - destruct (extract_batches_no_fs main_url h) as (batches & t & Heq & Hfs).
    rewrite Heq in Hex. injection Hex as _ <-.
    exists (t ++ [Print (py "No batches found!")]).
    split; [now rewrite app_assoc|].
    apply Forall_app. split; [assumption | repeat constructor].
Qed.

End Run.

Lemma create_batch_structure_no_batches_witness :
  @create_batch_structure Example.env Example.empty_url Example.base_dir [] =
    (Ret tt,
     [Print (py "Fetching batches from: " ++ Example.empty_url);
      Get Example.empty_url generate_headers (Ret (py "empty page"));
      Print (py "No batches found!")]).
Proof.
  apply (@create_batch_structure_no_batches Example.env Example.empty_url
           Example.base_dir []
           [Print (py "Fetching batches from: " ++ Example.empty_url);
            Get Example.empty_url generate_headers (Ret (py "empty page"))]).
  vm_compute. reflexivity.
Defined.

(** ** Histories only grow *)

Section Extends.

Context {E : Environment}.

Lemma bind_run {A B} (m : M A) (k : A -> M B) (h h' : history) (a : A) :
  m h = (Ret a, h') -> bind m k h = k a h'.
Proof. intros H. unfold bind. now rewrite H. Qed.

Lemma extends_ret {A} (a : A) : extends (ret a).
Proof. intros h. exists []. cbn. now rewrite app_nil_r. Qed.

Lemma extends_lift {A} (o : outcome A) : extends (lift o).
Proof. intros h. exists []. cbn. now rewrite app_nil_r. Qed.

Lemma extends_print (msg : str) : extends (print msg).
Proof. intros h. eexists. reflexivity. Qed.

Lemma extends_sleep (n : nat) : extends (sleep n).
Proof. intros h. eexists. reflexivity. Qed.

Lemma extends_makedirs (p : str) : extends (makedirs p).
Proof. intros h. eexists. reflexivity. Qed.

Lemma extends_bind {A B} (m : M A) (k : A -> M B) :
  extends m -> (forall a, extends (k a)) -> extends (bind m k).
Proof.
  intros Hm Hk h. unfold bind. destruct (Hm h) as [t Ht].
  destruct (m h) as [[a|e] h']; cbn [snd] in Ht; subst h'.
  - destruct (Hk a (h ++ t)) as [t' Ht']. exists (t ++ t').
    now rewrite Ht', app_assoc.
  - now exists t.
Qed.

Lemma extends_try_except {A} (m : M A) (handler : exn -> M A) :
  extends m -> (forall e, extends (handler e)) -> extends (try_except m handler).
Proof.
  intros Hm Hk h. unfold try_except. destruct (Hm h) as [t Ht].
  destruct (m h) as [[a|e] h']; cbn [snd] in Ht; subst h'.
  - now exists t.
  - destruct (Hk e (h ++ t)) as [t' Ht']. exists (t ++ t').
    now rewrite Ht', app_assoc.
Qed.

Lemma extends_for_each {A} (l : list A) (body : A -> M unit) :
  (forall x, extends (body x)) -> extends (for_each l body).
Proof.
  intros Hb. induction l as [|x l IH]; cbn [for_each].
  - apply extends_ret.
  - apply extends_bind; [apply Hb | intros _; exact IH].
Qed.

Lemma extends_fetch (url : str) : extends (fetch url).
Proof.
  intros h. destruct (fetch_cases url h)
    as [(errs & text & _ & Heq) | (errs & e & _ & Heq)];
    rewrite Heq; eexists; reflexivity.
Qed.

Lemma extends_save_html (content : option str) (filepath : str) :
  extends (save_html content filepath).
Proof.
  intros h. destruct (save_html_returns content filepath h) as (ok & t & Heq).
  rewrite Heq. now exists t.
Qed.

Lemma extends_create_view (chapter : Chapter) (folder : str)
    (name view : string) :
  extends (create_view chapter folder name view).
Proof.
  unfold create_view. apply extends_bind; [apply extends_makedirs | intros _].
  destruct (link_truthy (chapter_link chapter)); [|apply extends_ret].
  apply extends_bind; [apply extends_lift | intros url].
  apply extends_bind; [apply extends_fetch | intros [content success]].
  destruct success; [|apply extends_ret].
  apply extends_bind; [apply extends_save_html | intros _; apply extends_print].
Qed.

Lemma extends_process_chapter (folder : str) (chapter : Chapter) :
  extends (process_chapter folder chapter).
Proof.
  unfold process_chapter.
  apply extends_bind; [apply extends_makedirs | intros _].
  apply extends_bind; [apply extends_print | intros _].
  apply extends_bind; [apply extends_print | intros _].
  unfold create_chapter_views.
  apply extends_bind; [apply extends_create_view | intros _].
  apply extends_create_view.
Qed.

(** The handler of the loop over the batches makes every round return. *)
Lemma try_print_returns (m : M unit) (msg : exn -> str) (h : history) :
  extends m ->
  exists t,
    try_except m (fun e => print (msg e)) h = (Ret tt, snd (m h) ++ t).
Proof.
  intros Hm. unfold try_except, print.
  destruct (m h) as [[[]|e] h']; cbn [snd]; eexists.
  - now rewrite app_nil_r.
  - reflexivity.
Qed.

(** Every element of the list has its round, if the rounds return. *)
Lemma for_each_round {A} (l : list A) (body : A -> M unit) (x : A) :
  (forall y, extends (body y)) ->
  (forall y h, fst (body y h) = Ret tt) ->
  In x l ->
  forall h, exists before after,
    snd (for_each l body h) = snd (body x (h ++ before)) ++ after.
Proof.
  intros Hext Hret. induction l as [|y l IH]; intros [] h.
  - subst y. cbn [for_each]. unfold bind.
    specialize (Hret x h). destruct (body x h) as [r hx] eqn:Hx.
    cbn [fst] in Hret. subst r.
    destruct (extends_for_each l body Hext hx) as [t Ht].
    exists [], t. now rewrite app_nil_r, Hx.
  - cbn [for_each]. unfold bind.
    pose proof (Hret y h) as Hy. destruct (Hext y h) as [ty Hty].
    destruct (body y h) as [r hy]. cbn [fst snd] in Hy, Hty. subst r hy.
    destruct (IH H (h ++ ty)) as (before & after & Heq).
    exists (ty ++ before), after. now rewrite Heq, app_assoc.
Qed.

End Extends.

(** ** A batch whose folder name is empty *)

Section EmptyName.

Context {E : Environment}.

Lemma extract_chapters_loop_spec (batch_url : str) (cards : list ChapterCard) :
  forall chapters h,
    extract_chapters_loop batch_url cards chapters h =
      (Ret (chapters ++ chapter_records batch_url cards),
       h ++ chapter_warnings batch_url cards).
Proof.
  induction cards as [|card cards IH]; intros chapters h.
  - cbn. now rewrite !app_nil_r.
  - cbn [extract_chapters_loop].
    unfold chapter_records, chapter_warnings. cbn [flat_map].
    fold (chapter_records batch_url cards).
    fold (chapter_warnings batch_url cards).
    unfold bind at 1. unfold try_except, bind, lift, ret, print.
    destruct (extract_chapter batch_url card) as [c|e]; rewrite IH;
      cbn [app]; rewrite <- ?app_assoc; reflexivity.
Qed.

(** [extract_chapters] returns. *)
Lemma extract_chapters_returns (batch_url batch_name : str) (h : history) :
  exists chapters t,
    extract_chapters batch_url batch_name h = (Ret chapters, h ++ t).
Proof.
  unfold extract_chapters, bind, print.
  destruct (fetch_cases batch_url
              (h ++ [Print (py "Fetching chapters from: " ++ batch_url)]))
    as [(errs & text & _ & Heq) | (errs & e & _ & Heq)]; rewrite Heq;
    cbn [negb].
  - rewrite extract_chapters_loop_spec. eexists _, _.
    rewrite <- !app_assoc. reflexivity.
  - unfold ret. eexists _, _. rewrite <- !app_assoc. reflexivity.
Qed.

Lemma makedirs_reliable (p : str) (h : history) :
  reliable_fs E -> makedirs p h = (Ret tt, h ++ [Makedirs p None]).
Proof. intros [Hm _]. unfold makedirs. now rewrite Hm. Qed.

Lemma create_main_index_reliable (batches : list Batch) (base_dir : str)
    (h : history) :
  reliable_fs E ->
  let index_path := path_join base_dir (py "index.html") in
  create_main_index batches base_dir h =
    (Ret (map set_batch_folder_name batches),
     h ++ [Makedirs (dirname index_path) None;
           WriteFile index_path
             (render_main_index (map set_batch_folder_name batches)) None;
           Print (py "Created main index.html at " ++ index_path)]).
Proof.
  intros Hfs index_path. unfold create_main_index. fold index_path.
  erewrite bind_run by (apply save_html_reliable; assumption).
  unfold bind, print, ret. now rewrite <- app_assoc.
Qed.

Lemma create_batch_index_reliable (batch : Batch) (chapters : list Chapter)
    (folder : str) (h : history) :
  reliable_fs E ->
  let index_path := path_join folder (py "index.html") in
  create_batch_index batch chapters folder h =
    (Ret (map set_chapter_folder_name chapters),
     h ++ [Makedirs (dirname index_path) None;
           WriteFile index_path
             (render_batch_index batch (map set_chapter_folder_name chapters))
             None;
           Print (py "Created batch index.html at " ++ index_path)]).
Proof.
  intros Hfs index_path. unfold create_batch_index. fold index_path.
  erewrite bind_run by (apply save_html_reliable; assumption).
  unfold bind, print, ret. now rewrite <- app_assoc.
Qed.

(** What a batch writes on a reliable file system: its folder, then the
    snapshot of its page when the fetch succeeded, then its index page. *)
Lemma process_batch_writes (base_dir : str) (batch : Batch) (h : history) :
  reliable_fs E ->
  let folder := batch_folder_path base_dir batch in
  let details := path_join folder (py "batch_details.html") in
  exists fetched between chapters after,
    snd (process_batch base_dir batch h) =
      h ++ [Makedirs folder None;
            Print (10 :: py "Processing batch: " ++ batch_name batch);
            Print (py "Folder: " ++ folder)]
        ++ fetched ++ between
        ++ WriteFile (path_join folder (py "index.html"))
             (render_batch_index batch chapters) None :: after /\
    ((exists errs text,
         (List.length errs < 3)%nat /\
         fetched =
           retries (batch_link batch) 0 errs
             ++ [Get (batch_link batch) generate_headers (Ret text);
                 Makedirs (dirname details) None;
                 WriteFile details text None;
                 Print (py "Saved batch HTML: " ++ details)])
     \/
     (exists errs e,
         S (List.length errs) = 3%nat /\
         fetched =
           retries (batch_link batch) 0 errs
             ++ failed_round (batch_link batch) (List.length errs) e)).
Proof.
  intros Hfs folder details. unfold process_batch. fold folder. fold details.
  erewrite bind_run by (apply makedirs_reliable; assumption).
  erewrite bind_run by reflexivity.
  erewrite bind_run by reflexivity.
  set (h3 := ((h ++ [Makedirs folder None]) ++ _) ++ _).
  assert (Hstep :
    exists t5,
      ((exists errs text,
           (List.length errs < 3)%nat /\
           t5 = retries (batch_link batch) 0 errs
                  ++ [Get (batch_link batch) generate_headers (Ret text);
                      Makedirs (dirname details) None;
                      WriteFile details text None;
                      Print (py "Saved batch HTML: " ++ details)])
       \/
       (exists errs e,
           S (List.length errs) = 3%nat /\
           t5 = retries (batch_link batch) 0 errs
                  ++ failed_round (batch_link batch) (List.length errs) e))
      /\
      forall k : unit -> M unit,
        bind (fetch (batch_link batch))
          (fun r =>
             let (batch_content, success) := r in
             bind (if success
                   then bind (save_html batch_content details)
                          (fun _ => print (py "Saved batch HTML: " ++ details))
                   else ret tt) k) h3 = k tt (h3 ++ t5)).
  { destruct (fetch_cases (batch_link batch) h3)
      as [(errs & text & Hlen & Heq) | (errs & e & Hlen & Heq)].
    - eexists. split; [left; exists errs, text; split; [assumption|reflexivity]|].
      intros k. erewrite bind_run by eassumption. cbv beta iota.
      erewrite bind_run;
        [|erewrite bind_run by (apply save_html_reliable; assumption);
          reflexivity].
      f_equal. rewrite <- !app_assoc. reflexivity.
    - eexists. split; [right; exists errs, e; split; [assumption|reflexivity]|].
      intros k. erewrite bind_run by eassumption. cbv beta iota.
      erewrite bind_run by reflexivity. reflexivity. }
  destruct Hstep as (t5 & Hdetails & Hrun). rewrite Hrun.
  destruct (extract_chapters_returns (batch_link batch) (batch_name batch)
              (h3 ++ t5)) as (chapters & t6 & Hch).
  erewrite bind_run by eassumption.
  erewrite bind_run by (apply create_batch_index_reliable; assumption).
  match goal with
  | |- context [bind (for_each ?l ?body) ?k ?h7] =>
      destruct (extends_bind (for_each l body) k
                  (extends_for_each l body (extends_process_chapter folder))
                  (fun _ => extends_sleep 1) h7) as [t8 Ht8];
      rewrite Ht8
  end.
  exists t5,
    (t6 ++ [Makedirs (dirname (path_join folder (py "index.html"))) None]),
    (map set_chapter_folder_name chapters),
    (Print (py "Created batch index.html at "
            ++ path_join folder (py "index.html")) :: t8).
  split; [|exact Hdetails].
  subst h3. rewrite <- !app_assoc. reflexivity.
Qed.

Lemma extends_process_batch (base_dir : str) (batch : Batch) :
  extends (process_batch base_dir batch).
Proof.
  unfold process_batch.
  apply extends_bind; [apply extends_makedirs | intros _].
  apply extends_bind; [apply extends_print | intros _].
  apply extends_bind; [apply extends_print | intros _].
  apply extends_bind; [apply extends_fetch | intros [content success]].
  apply extends_bind.
  { destruct success; [|apply extends_ret].
    apply extends_bind; [apply extends_save_html | intros _; apply extends_print]. }
  intros _. apply extends_bind.
  { intros h. destruct (extract_chapters_returns (batch_link batch)
                          (batch_name batch) h) as (c & t & Heq).
    rewrite Heq. now exists t. }
  intros chapters. apply extends_bind.
  { unfold create_batch_index.
    apply extends_bind; [apply extends_save_html | intros _].
    apply extends_bind; [apply extends_print | intros _; apply extends_ret]. }
  intros chapters'. apply extends_bind; [|intros _; apply extends_sleep].
  apply extends_for_each. intros c. apply extends_process_chapter.
Qed.

(** In a run on a reliable file system, every extracted batch writes its
    index page, after the root index page was written. *)
Lemma create_batch_structure_writes (main_url base_dir : str)
    (h h1 : history) (batches : list Batch) (batch : Batch) :
  reliable_fs E ->
  extract_batches main_url h = (Ret batches, h1) ->
  In batch batches ->
  let batch' := set_batch_folder_name batch in
  let folder := batch_folder_path base_dir batch in
  let details := path_join folder (py "batch_details.html") in
  exists t1 t2 fetched t3 chapters t4,
    snd (create_batch_structure main_url base_dir h) =
      h1 ++ t1
         ++ WriteFile (path_join base_dir (py "index.html"))
              (render_main_index (map set_batch_folder_name batches)) None
         :: t2 ++ fetched ++ t3
         ++ WriteFile (path_join folder (py "index.html"))
              (render_batch_index batch' chapters) None
         :: t4 /\
    ((exists errs text,
         (List.length errs < 3)%nat /\
         fetched =
           retries (batch_link batch) 0 errs
             ++ [Get (batch_link batch) generate_headers (Ret text);
                 Makedirs (dirname details) None;
                 WriteFile details text None;
                 Print (py "Saved batch HTML: " ++ details)])
     \/
     (exists errs e,
         S (List.length errs) = 3%nat /\
         fetched =
           retries (batch_link batch) 0 errs
             ++ failed_round (batch_link batch) (List.length errs) e)).
Proof.
  intros Hfs Hex Hin batch' folder details.
  unfold create_batch_structure.
  erewrite bind_run by eassumption.
  destruct batches as [|b0 bs] eqn:Hb; [destruct Hin|]. rewrite <- Hb in *.
  erewrite bind_run by reflexivity.
  erewrite bind_run by (apply create_main_index_reliable; assumption).
  set (body := fun b : Batch => try_except (process_batch base_dir b) _).
  assert (Hext : forall y, extends (body y)).
  { intros y. apply extends_try_except; [apply extends_process_batch|].
    intros e. apply extends_print. }
  assert (Hret : forall y h', fst (body y h') = Ret tt).
  { intros y h'. subst body. cbv beta.
    destruct (try_print_returns (process_batch base_dir y)
                (fun e => py "Error processing batch " ++ batch_name y
                          ++ py ": " ++ e) h' (extends_process_batch _ _))
      as [t Ht]. now rewrite Ht. }
  assert (Hin' : In batch' (map set_batch_folder_name batches))
    by (now apply in_map).
  match goal with
  | |- context [for_each _ body ?h3] =>
      destruct (for_each_round _ body batch' Hext Hret Hin' h3)
        as (before & after & Hround); rewrite Hround
  end.
  subst body. cbv beta.
  match goal with
  | |- context [try_except _ _ ?hb] =>
      destruct (try_print_returns (process_batch base_dir batch')
                  (fun e => py "Error processing batch " ++ batch_name batch'
                            ++ py ": " ++ e) hb (extends_process_batch _ _))
        as [t Ht]; rewrite Ht;
      destruct (process_batch_writes base_dir batch' hb Hfs)
        as (fetched & between & chapters & after' & Hw & Hf)
  end.
  cbn [snd]. rewrite Hw.
  change (batch_folder_path base_dir batch') with folder in *.
  change (batch_link batch') with (batch_link batch) in *.
  change (batch_name batch') with (batch_name batch) in *.
  fold details in Hf.
  exists [Print (py "Found " ++ str_of_nat (List.length batches) ++ py " batches");
          Makedirs (dirname (path_join base_dir (py "index.html"))) None],
    (Print (py "Created main index.html at "
            ++ path_join base_dir (py "index.html")) :: before
     ++ [Makedirs folder None;
         Print (10 :: py "Processing batch: " ++ batch_name batch);
         Print (py "Folder: " ++ folder)]),
    fetched, between, chapters, (after' ++ t ++ after).
  split; [|exact Hf].
  rewrite <- !app_assoc. cbn [app]. rewrite <- !app_assoc. reflexivity.
Qed.

End EmptyName.

Lemma isspace_not_invalid (c : char) : isspace c = true -> invalid_char c = false.
Proof.
  unfold isspace, invalid_char. intros H.
  repeat (apply orb_false_iff; split); apply N.eqb_neq; intros ->;
    discriminate.
Qed.

Lemma lstrip_spaces (s : str) :
  Forall (fun c => isspace c = true) s -> lstrip s = [].
Proof.
  induction 1 as [|c s Hc Hs IH]; [reflexivity|]. cbn [lstrip]. now rewrite Hc.
Qed.

(** A name of invalid characters and white space sanitizes to the empty
    string. *)
Lemma clean_filename_symbols (name : str) :
  Forall (fun c => invalid_char c = true \/ isspace c = true) name ->
  clean_filename name = [].
Proof.
  intros H. unfold clean_filename, strip, collapse_spaces.
  rewrite lstrip_spaces; [reflexivity|].
  apply Forall_sub_spaces; [reflexivity|].
  unfold remove_invalid. apply Forall_forall. intros c Hc.
  apply filter_In in Hc as [Hin Hc]. rewrite Forall_forall in H.
  destruct (H _ Hin) as [Hi|Hs]; [|assumption].
  rewrite Hi in Hc. discriminate.
Qed.

(** C10.  A name that is not empty can sanitize to the empty string: every
    name made of the invalid characters and of white space does.  The
    folder of a batch with such a name is the output root itself (with a
    separator at its end), so the path of its index page is the path of
    the root index page and its snapshot is [batch_details.html] in the
    root.  In a run on a reliable file system the root index page is
    written first and the index page of that batch is written to the same
    path later; the snapshot is written in the root when the page of the
    batch could be fetched. *)
Theorem empty_folder_name_collides :
  (py "<?> | *" <> [] /\ clean_filename (py "<?> | *") = []) /\
  (forall name,
     Forall (fun c => invalid_char c = true \/ isspace c = true) name ->
     clean_filename name = []) /\
  (forall base_dir batch,
     clean_filename (batch_name batch) = [] ->
     batch_folder_path base_dir batch = join_prefix base_dir /\
     batch_folder_path kd_base_dir batch = kd_base_dir /\
     path_join (batch_folder_path base_dir batch) (py "index.html") =
       path_join base_dir (py "index.html") /\
     path_join (batch_folder_path base_dir batch) (py "batch_details.html") =
       path_join base_dir (py "batch_details.html")) /\
  (forall (E : Environment) main_url base_dir h h1 batches batch,
     reliable_fs E ->
     extract_batches main_url h = (Ret batches, h1) ->
     In batch batches ->
     clean_filename (batch_name batch) = [] ->
     exists t1 t2 fetched t3 chapters t4,
       snd (create_batch_structure main_url base_dir h) =
         h1 ++ t1
            ++ WriteFile (path_join base_dir (py "index.html"))
                 (render_main_index (map set_batch_folder_name batches)) None
            :: t2 ++ fetched ++ t3
            ++ WriteFile (path_join base_dir (py "index.html"))
                 (render_batch_index (set_batch_folder_name batch) chapters)
                 None
            :: t4 /\
       ((exists errs text,
            (List.length errs < 3)%nat /\
            fetched =
              retries (batch_link batch) 0 errs
                ++ [Get (batch_link batch) generate_headers (Ret text);
                    Makedirs
                      (dirname (path_join base_dir (py "batch_details.html")))
                      None;
                    WriteFile (path_join base_dir (py "batch_details.html"))
                      text None;
                    Print (py "Saved batch HTML: "
                           ++ path_join base_dir (py "batch_details.html"))])
        \/
        (exists errs e,
            S (List.length errs) = 3%nat /\
            fetched =
              retries (batch_link batch) 0 errs
                ++ failed_round (batch_link batch) (List.length errs) e))).
Proof.
  assert (Hpaths : forall base_dir batch,
             clean_filename (batch_name batch) = [] ->
             batch_folder_path base_dir batch = join_prefix base_dir /\
             path_join (batch_folder_path base_dir batch) (py "index.html") =
               path_join base_dir (py "index.html") /\
             path_join (batch_folder_path base_dir batch)
               (py "batch_details.html") =
               path_join base_dir (py "batch_details.html")).
  { intros base_dir batch Hname. unfold batch_folder_path. rewrite Hname.
    split; [apply path_join_empty|].
    split; apply path_join_empty_file; reflexivity. }
  split; [split; [discriminate | vm_compute; reflexivity]|].
  split; [exact clean_filename_symbols|].
  split.
  - intros base_dir batch Hname.
    destruct (Hpaths base_dir batch Hname) as (H1 & H2 & H3).
    repeat split; try assumption.
    unfold batch_folder_path. rewrite Hname. vm_compute. reflexivity.
  - intros E main_url base_dir h h1 batches batch Hfs Hex Hin Hname.
    destruct (Hpaths base_dir batch Hname) as (_ & H2 & H3).
    destruct (create_batch_structure_writes main_url base_dir h h1 batches
                batch Hfs Hex Hin)
      as (t1 & t2 & fetched & t3 & chapters & t4 & Hw & Hf).
    rewrite H2, H3 in *.
    exists t1, t2, fetched, t3, chapters, t4. split; assumption.
Qed.

Lemma empty_folder_name_collides_witness :
  exists t1 t2 fetched t3 chapters t4,
    snd (@create_batch_structure Example.env Example.symbols_url
           Example.base_dir []) =
      [Print (py "Fetching batches from: " ++ Example.symbols_url);
       Get Example.symbols_url generate_headers (Ret (py "symbols page"))]
        ++ t1
        ++ WriteFile (py "/out/index.html")
             (py "batches: <?> | *") None
        :: t2 ++ fetched ++ t3
        ++ WriteFile (py "/out/index.html")
             (@render_batch_index Example.env
                (set_batch_folder_name
                   {| batch_name := py "<?> | *";
                      batch_link := Example.batch_url;
                      batch_img := []; batch_folder_name := None |})
                chapters) None
        :: t4.
Proof.
  destruct empty_folder_name_collides as (_ & _ & _ & Hrun).
  destruct (Hrun Example.env Example.symbols_url Example.base_dir []
              [Print (py "Fetching batches from: " ++ Example.symbols_url);
               Get Example.symbols_url generate_headers
                 (Ret (py "symbols page"))]
              [{| batch_name := py "<?> | *"; batch_link := Example.batch_url;
                  batch_img := []; batch_folder_name := None |}]
              {| batch_name := py "<?> | *"; batch_link := Example.batch_url;
                 batch_img := []; batch_folder_name := None |}
              example_reliable_fs eq_refl (or_introl eq_refl) eq_refl)
    as (t1 & t2 & fetched & t3 & chapters & t4 & Hw & _).
  exists t1, t2, fetched, t3, chapters, t4. exact Hw.
Defined.

(** ** More about names *)

Lemma clean_filename_only_spaces (name : str) :
  Forall (fun c => isspace c = true -> c = SPACE) (clean_filename name).
Proof.
  unfold clean_filename, strip, collapse_spaces.
  apply Forall_firstn, Forall_rstrip, Forall_lstrip, sub_spaces_only_space.
Qed.

(** X1.  Whatever the name, the result of [clean_filename] has none of the
    characters that are invalid in a file name, its white space is the
    plain space only (tabs, line breaks and the other Unicode spaces are
    replaced or trimmed), no two spaces are adjacent, it does not start
    with a space and it has at most 100 characters. *)
Theorem clean_filename_normalised (name : str) :
  Forall (fun c => invalid_char c = false) (clean_filename name) /\
  Forall (fun c => isspace c = true -> c = SPACE) (clean_filename name) /\
  space_run (clean_filename name) = false /\
  starts_with_space (clean_filename name) = false /\
  (List.length (clean_filename name) <= 100)%nat.
Proof.
  repeat split.
  - apply clean_filename_no_invalid.
  - apply clean_filename_only_spaces.
  - apply clean_filename_no_space_run.
  - apply clean_filename_no_leading_space.
  - apply clean_filename_length.
Qed.

Lemma clean_filename_short_safe (name : str) :
  (List.length (strip (collapse_spaces (remove_invalid name))) <= 100)%nat ->
  safe_name (clean_filename name).
Proof.
  intros Hlen. destruct (clean_filename_short name Hlen) as (H1 & _ & _).
  unfold safe_name. repeat split.
  - apply clean_filename_no_invalid.
  - apply clean_filename_only_spaces.
  - apply clean_filename_no_space_run.
  - apply clean_filename_no_leading_space.
  - rewrite H1. unfold strip. apply rstrip_idem.
  - apply clean_filename_length.
Qed.

(** X2.  When the trimmed name fits in 100 characters (nothing is cut), the
    result is a safe name, and cleaning it again changes nothing. *)
Theorem clean_filename_idempotent_short (name : str) :
  (List.length (strip (collapse_spaces (remove_invalid name))) <= 100)%nat ->
  safe_name (clean_filename name) /\
  clean_filename (clean_filename name) = clean_filename name.
Proof.
  intros Hlen. split; [now apply clean_filename_short_safe|].
  now destruct (clean_filename_short name Hlen) as (_ & _ & H3).
Qed.

Lemma clean_filename_idempotent_short_witness :
  safe_name (clean_filename (py "  Ch 1:  Motion ")) /\
  clean_filename (clean_filename (py "  Ch 1:  Motion "))
    = clean_filename (py "  Ch 1:  Motion ").
Proof.
  apply (clean_filename_idempotent_short (py "  Ch 1:  Motion ")).
  vm_compute. lia.
Defined.

Lemma sub_spaces_length (s : str) (b : bool) :
  (List.length (sub_spaces b s) <= List.length s)%nat.
Proof.
  revert b. induction s as [|c s IH]; intros b; cbn [sub_spaces List.length];
    [lia|].
  pose proof (IH true). pose proof (IH false).
  destruct (isspace c); [destruct b|]; cbn [List.length]; lia.
Qed.

Lemma lstrip_length (s : str) : (List.length (lstrip s) <= List.length s)%nat.
Proof.
  induction s as [|c s IH]; cbn [lstrip List.length]; [lia|].
  destruct (isspace c); cbn [List.length]; lia.
Qed.

Lemma rstrip_length (s : str) : (List.length (rstrip s) <= List.length s)%nat.
Proof.
  induction s as [|c s IH]; cbn [rstrip List.length]; [lia|].
  destruct (rstrip s); [destruct (isspace c)|]; cbn [List.length] in *; lia.
Qed.

Lemma trimmed_length (name : str) :
  (List.length (strip (collapse_spaces (remove_invalid name)))
   <= List.length name)%nat.
Proof.
  unfold strip, collapse_spaces, remove_invalid.
  pose proof (rstrip_length (lstrip (sub_spaces false
                (filter (fun c => negb (invalid_char c)) name)))).
  pose proof (lstrip_length (sub_spaces false
                (filter (fun c => negb (invalid_char c)) name))).
  pose proof (sub_spaces_length
                (filter (fun c => negb (invalid_char c)) name) false).
  pose proof (filter_length_le (fun c => negb (invalid_char c)) name).
  lia.
Qed.

(** X3.  The names that the sanitizer leaves as they are are exactly the safe
    ones. *)
Theorem clean_filename_fixed_iff (s : str) :
  clean_filename s = s <-> safe_name s.
Proof.
  split.
  - intros Hfix.
    assert (Hlen : (List.length (strip (collapse_spaces (remove_invalid s)))
                    <= 100)%nat).
    { pose proof (trimmed_length s) as Ht.
      pose proof (f_equal (@List.length char) Hfix) as Hl.
      unfold clean_filename in Hl. rewrite length_firstn in Hl. lia. }
    rewrite <- Hfix. now apply clean_filename_short_safe.
  - intros (Hinv & Hsp & Hrun & Hlead & Hr & Hlen).
    unfold clean_filename, collapse_spaces, strip.
    rewrite (remove_invalid_fixed _ Hinv).
    rewrite (sub_spaces_fixed _ false Hrun ltac:(discriminate) Hsp).
    rewrite (lstrip_fixed _ Hlead), Hr. now apply firstn_all2.
Qed.

(** ** More about paths *)

Lemma path_head_relative (a b : str) :
  a <> [] -> endswith_sep a = true -> ~ In SEP b ->
  path_head (a ++ b) = a.
Proof.
  intros Hne Hend Hb. induction a as [|c a IH]; [now elim Hne|].
  cbn [app path_head]. destruct a as [|c2 a].
  - cbn [app]. unfold endswith_sep in Hend. cbn in Hend.
    replace (existsb (N.eqb SEP) b) with false.
    + now rewrite Hend.
    + symmetry. apply not_true_is_false. intros Hex.
      apply existsb_exists in Hex as (x & Hx & Heq).
      apply N.eqb_eq in Heq. subst x. contradiction.
  - assert (Hend' : endswith_sep (c2 :: a) = true).
    { unfold endswith_sep in *. cbn [rev] in *.
      destruct (rev a ++ [c2]) eqn:Hr; [now destruct (rev a)|].
      exact Hend. }
    replace (existsb (N.eqb SEP) ((c2 :: a) ++ b)) with true.
    + f_equal. apply IH; [discriminate | assumption].
    + symmetry. apply existsb_exists. exists SEP. split; [|apply N.eqb_refl].
      apply in_or_app. left. unfold endswith_sep in Hend'.
      destruct (rev (c2 :: a)) as [|x r] eqn:Hr; [discriminate|].
      apply N.eqb_eq in Hend'. subst x. apply in_rev. rewrite Hr. now left.
Qed.

Lemma rstrip_sep_snoc (a : str) :
  a <> [] -> endswith_sep a = false -> rstrip_sep (a ++ [SEP]) = a.
Proof.
  intros Hne Hend. induction a as [|c a IH]; [now elim Hne|].
  cbn [app rstrip_sep]. destruct a as [|c2 a].
  - cbn. unfold endswith_sep in Hend. cbn in Hend. now rewrite Hend.
  - assert (Hend' : endswith_sep (c2 :: a) = false).
    { unfold endswith_sep in *. cbn [rev] in *.
      destruct (rev a ++ [c2]) eqn:Hr; [now destruct (rev a)|].
      exact Hend. }
    rewrite IH by (discriminate || assumption). reflexivity.
Qed.

Lemma dirname_join (a b : str) :
  a <> [] -> endswith_sep a = false -> ~ In SEP b ->
  dirname (path_join a b) = a.
Proof.
  intros Hne Hend Hb.
  rewrite path_join_relative by (now apply startswith_sep_not_in).
  unfold join_prefix. destruct a as [|c a]; [now elim Hne|].
  cbn [truthy negb orb]. rewrite Hend. unfold dirname.
  rewrite path_head_relative;
    [| now destruct a | apply endswith_sep_snoc | assumption].
  rewrite rstrip_sep_snoc by (discriminate || assumption).
  replace (forallb (N.eqb SEP) ((c :: a) ++ [SEP])) with false;
    [reflexivity|].
  symmetry. apply not_true_is_false. intros Hall.
  rewrite forallb_forall in Hall.
  unfold endswith_sep in Hend.
  destruct (rev (c :: a)) as [|x r] eqn:Hr.
  - apply (f_equal (@List.length char)) in Hr. rewrite length_rev in Hr.
    discriminate.
  - assert (Hin : In x ((c :: a) ++ [SEP])).
    { apply in_or_app. left. apply in_rev. rewrite Hr. now left. }
    specialize (Hall _ Hin). rewrite N.eqb_sym in Hall. congruence.
Qed.

(** X4.  [os.path.dirname] undoes [os.path.join]: the directory of a file that
    was joined to a folder is the folder, when the folder is not empty and
    does not end in a separator and the file name has no separator. *)
Theorem dirname_path_join (a b : str) :
  a <> [] -> endswith_sep a = false -> ~ In SEP b ->
  dirname (path_join a b) = a.
Proof. apply dirname_join. Qed.

Lemma dirname_path_join_witness :
  dirname (path_join (py "/out/B/Ch 1/Notes") (py "index.html"))
    = py "/out/B/Ch 1/Notes".
Proof.
  apply dirname_path_join.
  - discriminate.
  - reflexivity.
  - vm_compute. intuition discriminate.
Defined.

(** X5.  The directory that [save_html] creates for the index page of a view
    is the folder of the view, which [create_chapter_views] created just
    before: whatever the chapter folder is, no other directory is made for
    the page. *)
Theorem view_index_directory (chapter_folder_path : str) :
  dirname (path_join (path_join chapter_folder_path (py "Lectures"))
             (py "index.html"))
    = path_join chapter_folder_path (py "Lectures") /\
  dirname (path_join (path_join chapter_folder_path (py "Notes"))
             (py "index.html"))
    = path_join chapter_folder_path (py "Notes").
Proof.
  assert (Hidx : ~ In SEP (py "index.html"))
    by (vm_compute; intuition discriminate).
  split; apply dirname_join; try exact Hidx.
  - rewrite path_join_relative by reflexivity.
    intros H. apply app_eq_nil in H as [_ H]. discriminate H.
  - rewrite path_join_relative by reflexivity.
    unfold endswith_sep. rewrite rev_app_distr. reflexivity.
  - rewrite path_join_relative by reflexivity.
    intros H. apply app_eq_nil in H as [_ H]. discriminate H.
  - rewrite path_join_relative by reflexivity.
    unfold endswith_sep. rewrite rev_app_distr. reflexivity.
Qed.

Lemma startswith_iff (p s : str) :
  startswith p s = true <-> exists t, s = p ++ t.
Proof.
  split.
  - revert s. induction p as [|a p IH]; intros s H; [now exists s|].
    destruct s as [|b s]; [discriminate|]. cbn [startswith] in H.
    apply andb_true_iff in H as [Hab Hs]. apply N.eqb_eq in Hab. subst b.
    destruct (IH _ Hs) as [t ->]. now exists t.
  - intros [t ->]. apply startswith_app.
Qed.

Lemma startswith_join_prefix (a s : str) :
  startswith a (join_prefix a ++ s) = true.
Proof.
  unfold join_prefix. destruct (negb (truthy a) || endswith_sep a).
  - apply startswith_app.
  - rewrite <- app_assoc. apply startswith_app.
Qed.

(** X6.  The folder of a batch lies below the base directory and the folder of
    a chapter below the folder of its batch, one name deep: the name that
    is joined has no separator, so it can neither add a level nor, as an
    absolute path would, replace the folder it is joined to. *)
Theorem folders_stay_below (base_dir : str) (batch : Batch)
    (chapter : Chapter) :
  let folder := batch_folder_path base_dir batch in
  let sub := chapter_folder_path folder chapter in
  folder = join_prefix base_dir ++ clean_filename (batch_name batch) /\
  sub = join_prefix folder ++ clean_filename (chapter_name chapter) /\
  ~ In SEP (clean_filename (batch_name batch)) /\
  ~ In SEP (clean_filename (chapter_name chapter)) /\
  startswith base_dir folder = true /\
  startswith folder sub = true /\
  startswith base_dir sub = true.
Proof.
  intros folder sub. subst sub folder.
  unfold chapter_folder_path, batch_folder_path. rewrite !path_join_clean.
  repeat split; try apply clean_filename_no_sep;
    try apply startswith_join_prefix.
  apply startswith_iff.
  destruct (proj1 (startswith_iff _ _)
              (startswith_join_prefix base_dir
                 (clean_filename (batch_name batch)))) as [t Ht].
  rewrite Ht.
  destruct (proj1 (startswith_iff _ _)
              (startswith_join_prefix (base_dir ++ t)
                 (clean_filename (chapter_name chapter)))) as [t' Ht'].
  rewrite Ht', <- app_assoc. eauto.
Qed.

(** ** Saving a page *)

Section Saving.

Context {E : Environment}.


Lemma save_html_refused (content : option str) (filepath : str)
    (h : history) (e : exn) :
  os_makedirs h (dirname filepath) = Some e ->
  save_html content filepath h =
    (Ret false,
     h ++ [Makedirs (dirname filepath) (Some e);
           Print (py "Error saving " ++ filepath ++ py ": " ++ e)]).
Proof.
  intros H. unfold save_html, try_except, bind, makedirs, print, ret.
  rewrite H, <- app_assoc. reflexivity.
Qed.

(** X8.  The two index writers do not look at what [save_html] returns: they
    return the records with their folder names and end with the line
    [Created ... index.html at ...] in every environment, also when the
    page was not written, in which case the line follows the error line of
    [save_html]. *)
Theorem index_reported_even_if_not_saved (h : history) :
  (forall batches base_dir,
      let index_path := path_join base_dir (py "index.html") in
      exists t,
        create_main_index batches base_dir h =
          (Ret (map set_batch_folder_name batches),
           h ++ t ++ [Print (py "Created main index.html at " ++ index_path)])
        /\
        forall e, os_makedirs h (dirname index_path) = Some e ->
          t = [Makedirs (dirname index_path) (Some e);
               Print (py "Error saving " ++ index_path ++ py ": " ++ e)]) /\
  (forall batch chapters folder,
      let index_path := path_join folder (py "index.html") in
      exists t,
        create_batch_index batch chapters folder h =
          (Ret (map set_chapter_folder_name chapters),
           h ++ t ++ [Print (py "Created batch index.html at " ++ index_path)])
        /\
        forall e, os_makedirs h (dirname index_path) = Some e ->
          t = [Makedirs (dirname index_path) (Some e);
               Print (py "Error saving " ++ index_path ++ py ": " ++ e)]).
Proof.
  split.
  - intros batches base_dir index_path. unfold create_main_index.
    fold index_path.
    destruct (save_html_returns
                (Some (render_main_index (map set_batch_folder_name batches)))
                index_path h) as (ok & t & Heq).
    exists t. split.
    + erewrite bind_run by exact Heq. unfold bind, print, ret.
      now rewrite <- app_assoc.
    + intros e He. rewrite (save_html_refused _ _ _ _ He) in Heq.
      injection Heq as _ Heq. now apply app_inv_head in Heq.
  - intros batch chapters folder index_path. unfold create_batch_index.
    fold index_path.
    destruct (save_html_returns
                (Some (render_batch_index batch
                         (map set_chapter_folder_name chapters)))
                index_path h) as (ok & t & Heq).
    exists t. split.
    + erewrite bind_run by exact Heq. unfold bind, print, ret.
      now rewrite <- app_assoc.
    + intros e He. rewrite (save_html_refused _ _ _ _ He) in Heq.
      injection Heq as _ Heq. now apply app_inv_head in Heq.
Qed.

End Saving.

(** ** The whole run *)

Section WholeRun.

Context {E : Environment}.












Lemma fetch_down (url : str) (h : history) :
  (forall h', exists e, requests_get h' url generate_headers = Raise e) ->
  exists e1 e2 e3,
    fetch url h =
      (Ret (None, false),
       h ++ retries url 0 [e1; e2] ++ failed_round url 2 e3).
Proof.
  intros Hdown. unfold fetch, bind, get_page_content.
  rewrite get_page_content_from_step. destruct (Hdown h) as [e1 ->].
  cbn [Nat.ltb Nat.leb Nat.sub].
  rewrite get_page_content_from_step.
  destruct (Hdown (h ++ failed_round url 0 e1 ++ [Sleep 2])) as [e2 ->].
  cbn [Nat.ltb Nat.leb Nat.sub].
  rewrite get_page_content_from_step.
  destruct (Hdown ((h ++ failed_round url 0 e1 ++ [Sleep 2])
                   ++ failed_round url 1 e2 ++ [Sleep 2])) as [e3 ->].
  cbn [Nat.ltb Nat.leb Nat.sub].
  exists e1, e2, e3. unfold ret. f_equal.
  cbn [retries]. rewrite <- !app_assoc. cbn [app]. reflexivity.
Qed.

(** X12.  When the root page cannot be fetched, the run ends as it does for a
    site without batches: after three failed requests and two pauses it
    prints [No batches found!] and returns, and nothing is written. *)
Theorem unreachable_site_reported_as_empty (main_url base_dir : str)
    (h : history) :
  (forall h', exists e, requests_get h' main_url generate_headers = Raise e) ->
  exists e1 e2 e3,
    create_batch_structure main_url base_dir h =
      (Ret tt,
       h ++ Print (py "Fetching batches from: " ++ main_url)
         :: retries main_url 0 [e1; e2]
         ++ failed_round main_url 2 e3
         ++ [Print (py "No batches found!")]).
Proof.
  intros Hdown. unfold create_batch_structure, extract_batches.
  destruct (fetch_down main_url
              (h ++ [Print (py "Fetching batches from: " ++ main_url)]) Hdown)
    as (e1 & e2 & e3 & Heq).
  exists e1, e2, e3.
  erewrite bind_run;
    [|erewrite bind_run by reflexivity; erewrite bind_run by exact Heq;
      reflexivity].
  unfold print. f_equal. rewrite <- !app_assoc. cbn [app]. reflexivity.
Qed.


End WholeRun.


Lemma unreachable_site_reported_as_empty_witness :
  exists e1 e2 e3,
    create_batch_structure (E := Example.env)
      Example.lectures_url Example.base_dir [] =
      (Ret tt,
       [] ++ Print (py "Fetching batches from: " ++ Example.lectures_url)
         :: retries Example.lectures_url 0 [e1; e2]
         ++ failed_round Example.lectures_url 2 e3
         ++ [Print (py "No batches found!")]).
Proof.
  apply (unreachable_site_reported_as_empty (E := Example.env)).
  intros h'. exists (py "503 Server Error"). reflexivity.
Defined.

(** ** The records of a page *)

Section PageRecords.

Context {E : Environment}.

Lemma read_stats_snoc (items : list Tag) (item : Tag) (st : Stats) :
  read_stats (items ++ [item]) st = read_stats [item] (read_stats items st).
Proof.
  revert st. induction items as [|i items IH]; intros st; [reflexivity|].
  cbn [app read_stats]. apply IH.
Qed.

(** X13.  The counters of a chapter: each is read from the last item of the
    list that sets it, where an item that mentions [Videos] sets the videos
    only, also when it mentions [Notes] too; a counter that no item sets
    keeps the value it had, which is 0 in [extract_chapters]. *)
Theorem read_stats_last_wins (items : list Tag) (st : Stats) :
  videos (read_stats items st) =
    match find (fun item => contains (py "Videos") (get_text item))
               (rev items) with
    | Some item => counter (get_text item)
    | None => videos st
    end /\
  notes (read_stats items st) =
    match find (fun item => negb (contains (py "Videos") (get_text item))
                            && contains (py "Notes") (get_text item))
               (rev items) with
    | Some item => counter (get_text item)
    | None => notes st
    end.
Proof.
  induction items as [|item items IH] using rev_ind; [now split|].
  rewrite read_stats_snoc, rev_app_distr. cbn [rev app find read_stats].
  destruct IH as [IHv IHn].
  destruct (contains (py "Videos") (get_text item)); cbn [negb andb videos notes].
  - split; [reflexivity | exact IHn].
  - destruct (contains (py "Notes") (get_text item)); cbn [videos notes];
      split; (reflexivity || assumption).
Qed.


(** X15.  Every item of the root page is exactly one of three: a record, a line
    [Error processing batch], or, when it has no study button with a link,
    nothing at all. *)
Theorem batch_items_partition (main_url : str) (items : list BatchItem) :
  (List.length (batch_records main_url items)
   + List.length (batch_warnings main_url items)
   + List.length (filter (fun item =>
                            match batch_item_href item with
                            | None => true
                            | Some _ => false
                            end) items)
   = List.length items)%nat.
Proof.
  induction items as [|item items IH]; [reflexivity|].
  rewrite batch_records_cons, batch_warnings_cons. cbn [filter].
  rewrite !length_app.
  pose proof (extract_batch_cases main_url item) as Hc.
  destruct (batch_item_href item) as [href|].
  - destruct Hc as [(link & img & _ & ->) | (e & ->)];
      cbn [List.length]; lia.
  - rewrite Hc. cbn [List.length]. lia.
Qed.

End PageRecords.

(** ** The link of a chapter *)

Lemma until_quote_spec (s g : str) :
  until_quote s = Some g <->
  exists post, s = g ++ QUOTE :: post /\ ~ In QUOTE g.
Proof.
  revert g. induction s as [|c s IH]; intros g; cbn [until_quote].
  - split; [discriminate|]. intros (post & H & _).
    now destruct g.
  - destruct (N.eqb_spec c QUOTE) as [->|Hc].
    + split.
      * intros H. apply UrllibFacts.some_inj in H. subst g.
        exists s. split; [reflexivity | intros []].
      * intros (post & H & Hg). destruct g as [|d g]; [reflexivity|].
        injection H as Hd _. subst d. elim Hg. now left.
    + destruct (until_quote s) as [g'|] eqn:Hu.
      * split.
        -- intros H. apply UrllibFacts.some_inj in H. subst g.
           destruct (proj1 (IH g') eq_refl) as (post & -> & Hg).
           exists post. split; [reflexivity|].
           intros [H|H]; [now elim Hc | contradiction].
        -- intros (post & H & Hg). destruct g as [|d g].
           ++ injection H as Hd _. now elim Hc.
           ++ injection H as Hd Hs. subst d. f_equal. f_equal.
              assert (Hsome : Some g' = Some g).
              { apply IH. exists post. split; [assumption|].
                intros Hin. apply Hg. now right. }
              now apply UrllibFacts.some_inj in Hsome.
      * split; [discriminate|].
        intros (post & H & Hg). destruct g as [|d g].
        -- injection H as Hd _. now elim Hc.
        -- injection H as Hd Hs. exfalso.
           assert (Hsome : None = Some g); [|discriminate].
           apply IH. exists post. split; [assumption|].
           intros Hin. apply Hg. now right.
Qed.

Lemma match_href_at_spec (s g : str) :
  match_href_at s = Some g <->
  exists post,
    s = href_prefix ++ g ++ QUOTE :: post /\ g <> [] /\ ~ In QUOTE g.
Proof.
  unfold match_href_at. split.
  - destruct (startswith href_prefix s) eqn:Hs; [|discriminate].
    apply startswith_iff in Hs as [t ->].
    rewrite skipn_app, skipn_all, Nat.sub_diag. cbn [skipn app].
    destruct (until_quote t) as [g'|] eqn:Hu; [|discriminate].
    destruct g' as [|c g']; [discriminate|]. cbn [truthy].
    intros H. apply UrllibFacts.some_inj in H. subst g.
    apply until_quote_spec in Hu as (post & -> & Hg).
    exists post. repeat split; [discriminate | assumption].
  - intros (post & -> & Hne & Hg). rewrite startswith_app.
    rewrite skipn_app, skipn_all, Nat.sub_diag. cbn [skipn app].
    replace (until_quote (g ++ QUOTE :: post)) with (Some g)
      by (symmetry; apply until_quote_spec; eauto).
    destruct g; [now elim Hne | reflexivity].
Qed.

Lemma search_href_sound (s g : str) :
  search_href s = Some g ->
  exists pre post,
    s = pre ++ href_prefix ++ g ++ QUOTE :: post /\ g <> [] /\ ~ In QUOTE g.
Proof.
  induction s as [|c s IH]; cbn [search_href].
  - destruct (match_href_at []) as [g'|] eqn:Hm; [|discriminate].
    intros H. apply UrllibFacts.some_inj in H. subst g'.
    apply match_href_at_spec in Hm as (post & Hs & Hne & Hg).
    exists [], post. now repeat split.
  - destruct (match_href_at (c :: s)) as [g'|] eqn:Hm.
    + intros H. apply UrllibFacts.some_inj in H. subst g'.
      apply match_href_at_spec in Hm as (post & Hs & Hne & Hg).
      exists [], post. now repeat split.
    + intros H. destruct (IH H) as (pre & post & -> & Hne & Hg).
      exists (c :: pre), post. now repeat split.
Qed.

Lemma search_href_complete (pre g post : str) :
  g <> [] -> ~ In QUOTE g ->
  exists g', search_href (pre ++ href_prefix ++ g ++ QUOTE :: post) = Some g'.
Proof.
  intros Hne Hg. induction pre as [|c pre IH].
  - exists g. cbn [app].
    assert (Hm : match_href_at (href_prefix ++ g ++ QUOTE :: post) = Some g)
      by (apply match_href_at_spec; eauto).
    destruct (href_prefix ++ g ++ QUOTE :: post); cbn [search_href];
      now rewrite Hm.
  - cbn [app search_href].
    destruct (match_href_at (c :: pre ++ href_prefix ++ g ++ QUOTE :: post));
      eauto.
Qed.

(** X16.  The search for the link in the handler of a card, which the source
    does with a regular expression.  A result is a non-empty text without
    a quote that stands in the attribute between [window.location.href=']
    and a quote; a result is found whenever the attribute has such a text;
    at the start of the attribute it is that text; and whenever there is a
    result, the attribute passes the test [in] that guards the search. *)
Theorem search_href_spec (s : str) :
  (forall g,
      search_href s = Some g ->
      (exists pre post,
          s = pre ++ href_prefix ++ g ++ QUOTE :: post /\
          g <> [] /\ ~ In QUOTE g) /\
      contains (py "window.location.href") s = true) /\
  ((exists pre g post,
       s = pre ++ href_prefix ++ g ++ QUOTE :: post /\
       g <> [] /\ ~ In QUOTE g) ->
   search_href s <> None) /\
  (forall g post,
      s = href_prefix ++ g ++ QUOTE :: post -> g <> [] -> ~ In QUOTE g ->
      search_href s = Some g).
Proof.
  repeat split.
  - now apply search_href_sound.
  - apply search_href_sound in H as (pre & post & -> & _ & _).
    change href_prefix with (py "window.location.href" ++ py "='").
    rewrite <- (app_assoc (py "window.location.href")).
    apply contains_app.
  - intros (pre & g & post & -> & Hne & Hg).
    destruct (search_href_complete pre g post Hne Hg) as [g' ->].
    discriminate.
  - intros g post -> Hne Hg.
    assert (Hm : match_href_at (href_prefix ++ g ++ QUOTE :: post) = Some g)
      by (apply match_href_at_spec; eauto).
    destruct (href_prefix ++ g ++ QUOTE :: post); cbn [search_href];
      now rewrite Hm.
Qed.

Section ChapterLink.

Context {E : Environment}.



End ChapterLink.


(** ** The two views of a chapter *)

Section Views2.

Context {E : Environment}.

Import Urllib.

Lemma view_url_of_inv (p : ParseResult) (view u : str) :
  view_url_of p view = Ret u ->
  exists q,
    urlencode (dict_set (parse_qs (query p)) (py "view") [view]) = Some q /\
    u = geturl (replace_query p q).
Proof.
  unfold view_url_of.
  destruct (urlencode _) as [q|]; [|discriminate].
  intros H. injection H as <-. eauto.
Qed.

Lemma view_dict_reads_back (qs view q : str) :
  view <> [] ->
  urlencode (dict_set (parse_qs qs) (py "view") [view]) = Some q ->
  parse_qs q = dict_set (parse_qs qs) (py "view") [view].
Proof.
  intros Hne Hq. apply UrllibFacts.parse_qs_urlencode; [| |assumption].
  - apply UrllibFacts.dict_set_wf; [discriminate | apply UrllibFacts.parse_qs_wf].
  - apply (UrllibFacts.dict_all_values (fun _ => True)).
    apply UrllibFacts.dict_set_all; [exact I | now repeat constructor |].
    pose proof (UrllibFacts.parse_qs_values_nonempty qs) as H.
    unfold values_nonempty in H. unfold dict_all.
    eapply Forall_impl; [|exact H]. now intros kv Hkv.
Qed.

Lemma geturl_query_inj (p : ParseResult) (q1 q2 : str) :
  geturl (replace_query p q1) = geturl (replace_query p q2) -> q1 = q2.
Proof.
  unfold geturl, urlunparse, urlunsplit.
  cbn [scheme netloc path params query fragment replace_query].
  match goal with
  | |- context [if truthy (scheme p) then ?a else ?b] =>
      generalize (if truthy (scheme p) then a else b)
  end.
  intros x.
  assert (Hq : x ++ (if truthy q1 then 63 :: q1 else [])
               = x ++ (if truthy q2 then 63 :: q2 else []) -> q1 = q2).
  { intros H. apply app_inv_head in H.
    destruct q1, q2; cbn [truthy] in H; congruence. }
  intros H. apply Hq.
  replace (if truthy q1 then x ++ 63 :: q1 else x)
    with (x ++ (if truthy q1 then 63 :: q1 else [])) in H
    by (destruct q1; cbn [truthy]; [apply app_nil_r | reflexivity]).
  replace (if truthy q2 then x ++ 63 :: q2 else x)
    with (x ++ (if truthy q2 then 63 :: q2 else [])) in H
    by (destruct q2; cbn [truthy]; [apply app_nil_r | reflexivity]).
  destruct (truthy (fragment p)); [|exact H].
  now apply app_inv_tail in H.
Qed.

(** X18.  The pages of the two views of a chapter are never fetched from the
    same URL: the URL derived for the lectures and the one derived for the
    notes differ, whatever the link of the chapter is. *)
Theorem view_urls_differ (link lectures_url notes_url : str) :
  view_url link (py "lectures") = Ret lectures_url ->
  view_url link (py "notes") = Ret notes_url ->
  lectures_url <> notes_url.
Proof.
  unfold view_url. destruct (urlparse link) as [p|e]; [|discriminate].
  intros H1 H2 Heq.
  apply view_url_of_inv in H1 as (q1 & Hq1 & ->).
  apply view_url_of_inv in H2 as (q2 & Hq2 & ->).
  apply geturl_query_inj in Heq. subst q2.
  apply view_dict_reads_back in Hq1; [|discriminate].
  apply view_dict_reads_back in Hq2; [|discriminate].
  rewrite Hq1 in Hq2.
  pose proof (UrllibFacts.dict_get_set_same (parse_qs (query p)) (py "view")
                [py "lectures"]) as Hl.
  rewrite Hq2, UrllibFacts.dict_get_set_same in Hl. discriminate Hl.
Qed.

Lemma dict_set_set (d : dict) (k : str) (a b : list str) :
  dict_set (dict_set d k a) k b = dict_set d k b.
Proof.
  induction d as [|[k' vs] d IH]; cbn [dict_set].
  - now rewrite str_eqb_refl.
  - destruct (str_eqb k k') eqn:Hk; cbn [dict_set]; rewrite Hk;
      [reflexivity | now rewrite IH].
Qed.

(** X19.  Deriving a view from a derived URL gives what deriving it from the
    link gives: the value of [view] is replaced, not added, so the views
    of a link that already names a view are those of the link without
    it. *)
Theorem view_of_view (p : ParseResult) (first second url : str) :
  first <> [] ->
  view_url_of p first = Ret url ->
  exists q,
    url = geturl (replace_query p q) /\
    view_url_of (replace_query p q) second = view_url_of p second.
Proof.
  intros Hne H. apply view_url_of_inv in H as (q & Hq & ->).
  exists q. split; [reflexivity|].
  unfold view_url_of. cbn [query replace_query].
  rewrite (view_dict_reads_back _ _ _ Hne Hq), dict_set_set.
  reflexivity.
Qed.





End Views2.

Lemma view_urls_differ_witness :
  str_eqb (py "https://site.example/kd/chapter?id=7&view=lectures")
          (py "https://site.example/kd/chapter?id=7&view=notes") = false.
Proof.
  apply str_eqb_neq.
  apply (view_urls_differ (E := Example.env) Example.chapter_url);
    vm_compute; reflexivity.
Defined.

Lemma view_of_view_witness :
  exists q,
    py "https://site.example/kd/chapter?id=7&view=lectures"
      = Urllib.geturl (Urllib.replace_query Example.chapter_parsed q) /\
    view_url_of (Urllib.replace_query Example.chapter_parsed q) (py "notes")
      = view_url_of Example.chapter_parsed (py "notes").
Proof.
  apply (view_of_view Example.chapter_parsed (py "lectures") (py "notes")).
  - discriminate.
  - vm_compute. reflexivity.
Defined.


(** ** What a chapter costs *)

Section Costs.

Context {E : Environment}.

Lemma requests_app (a b : list event) :
  requests (a ++ b) = (requests a + requests b)%nat.
Proof. unfold requests. now rewrite filter_app, length_app. Qed.

Lemma seconds_slept_app (a b : list event) :
  seconds_slept (a ++ b) = (seconds_slept a + seconds_slept b)%nat.
Proof. unfold seconds_slept. now rewrite map_app, list_sum_app. Qed.

Lemma requests_cons (ev : event) (t : list event) :
  requests (ev :: t) = ((if is_get ev then 1 else 0) + requests t)%nat.
Proof. unfold requests. cbn [filter]. now destruct (is_get ev). Qed.

Lemma seconds_slept_cons (ev : event) (t : list event) :
  seconds_slept (ev :: t) =
    (match ev with Sleep n => n | _ => 0 end + seconds_slept t)%nat.
Proof. reflexivity. Qed.

Lemma retries_cost (url : str) (errs : list exn) (attempt : nat) :
  requests (retries url attempt errs) = List.length errs /\
  seconds_slept (retries url attempt errs) = (2 * List.length errs)%nat.
Proof.
  revert attempt. induction errs as [|e errs IH]; intros attempt;
    [now split|].
  destruct (IH (S attempt)) as [IHr IHs].
  cbn [retries failed_round app List.length].
  rewrite !requests_cons, !seconds_slept_cons, IHr, IHs. cbn [is_get].
  split; lia.
Qed.

Lemma get_page_content_costs (url : str) (max_retries : nat) :
  costs (get_page_content url max_retries) max_retries (2 * (max_retries - 1)).
Proof.
  intros h. destruct max_retries as [|r].
  - exists []. rewrite get_page_content_zero. cbn [snd].
    rewrite app_nil_r. repeat split; apply le_n.
  - unfold get_page_content.
    destruct (get_page_content_from_spec url (S r) r 0 h eq_refl)
      as [(errs & text & Hlen & Heq) | (errs & e & Hlen & Heq)];
      rewrite Heq; cbn [snd]; eexists; (split; [reflexivity|]);
      rewrite requests_app, seconds_slept_app;
      destruct (retries_cost url errs 0) as [-> ->].
    + rewrite requests_cons, seconds_slept_cons. cbn. lia.
    + unfold failed_round. rewrite !requests_cons, !seconds_slept_cons.
      cbn. lia.
Qed.

(** X21.  [get_page_content] makes at most [max_retries] requests and sleeps two
    seconds between two of them, so at most [2 * (max_retries - 1)]
    seconds, in every environment. *)
Theorem get_page_content_cost (url : str) (max_retries : nat) :
  costs (get_page_content url max_retries) max_retries (2 * (max_retries - 1)).
Proof. apply get_page_content_costs. Qed.

Lemma costs_weaken {A} (m : M A) (r s r' s' : nat) :
  costs m r s -> (r <= r')%nat -> (s <= s')%nat -> costs m r' s'.
Proof.
  intros Hm Hr Hs h. destruct (Hm h) as (t & Ht & H1 & H2).
  exists t. repeat split; [assumption | lia | lia].
Qed.

Lemma costs_bind {A B} (m : M A) (k : A -> M B) (r1 s1 r2 s2 : nat) :
  costs m r1 s1 -> (forall a, costs (k a) r2 s2) ->
  costs (bind m k) (r1 + r2) (s1 + s2).
Proof.
  intros Hm Hk h. unfold bind. destruct (Hm h) as (t & Ht & H1 & H2).
  destruct (m h) as [[a|e] h']; cbn [snd] in Ht; subst h'.
  - destruct (Hk a (h ++ t)) as (t' & Ht' & H1' & H2'). exists (t ++ t').
    rewrite Ht', app_assoc, requests_app, seconds_slept_app.
    repeat split; lia.
  - exists t. repeat split; [lia | lia].
Qed.

Lemma costs_free {A} (m : M A) :
  (forall h, exists t,
      snd (m h) = h ++ t /\
      Forall (fun ev => match ev with
                        | Get _ _ _ | Sleep _ => False
                        | _ => True
                        end) t) ->
  costs m 0 0.
Proof.
  intros Hm h. destruct (Hm h) as (t & Ht & Hall). exists t.
  split; [assumption|]. clear Ht.
  induction Hall as [|ev t Hev Hall [IH1 IH2]]; [now split|].
  rewrite requests_cons, seconds_slept_cons.
  destruct ev; try contradiction; cbn [is_get]; split; assumption.
Qed.

Lemma costs_ret {A} (a : A) : costs (ret a) 0 0.
Proof.
  apply costs_free. intros h. exists []. cbn. now rewrite app_nil_r.
Qed.

Lemma costs_lift {A} (o : outcome A) : costs (lift o) 0 0.
Proof.
  apply costs_free. intros h. exists []. cbn. now rewrite app_nil_r.
Qed.

Lemma costs_print (msg : str) : costs (print msg) 0 0.
Proof.
  apply costs_free. intros h. eexists. split; [reflexivity|].
  now repeat constructor.
Qed.

Lemma costs_makedirs (p : str) : costs (makedirs p) 0 0.
Proof.
  apply costs_free. intros h. eexists. split; [reflexivity|].
  now repeat constructor.
Qed.

Lemma costs_save_html (content : option str) (filepath : str) :
  costs (save_html content filepath) 0 0.
Proof.
  apply costs_free. intros h.
  unfold save_html, try_except, bind, makedirs, write_file, ret, print.
  destruct (os_makedirs h (dirname filepath)) as [e|].
  - eexists. rewrite <- app_assoc. split; [reflexivity|].
    now repeat constructor.
  - destruct content as [text|].
    + destruct (open_write _ filepath text) as [e|];
        eexists; rewrite <- !app_assoc; (split; [reflexivity|]);
        now repeat constructor.
    + eexists. rewrite <- !app_assoc. split; [reflexivity|].
      now repeat constructor.
Qed.

Lemma costs_fetch (url : str) : costs (fetch url) 3 4.
Proof.
  intros h. destruct (get_page_content_costs url 3 h) as (t & Ht & H1 & H2).
  exists t. split; [|split; assumption].
  unfold fetch, bind. destruct (get_page_content url 3 h) as [[[p|]|e] h'];
    exact Ht.
Qed.

Lemma costs_create_view (chapter : Chapter) (folder : str)
    (name view : string) :
  costs (create_view chapter folder name view) 3 4.
Proof.
  unfold create_view.
  apply (costs_bind _ _ 0 0 3 4); [apply costs_makedirs | intros _].
  destruct (link_truthy (chapter_link chapter));
    [|apply (costs_weaken _ 0 0); [apply costs_ret | lia | lia]].
  apply (costs_bind _ _ 0 0 3 4); [apply costs_lift | intros url].
  apply (costs_bind _ _ 3 4 0 0); [apply costs_fetch | intros [content success]].
  destruct success; [|apply costs_ret].
  apply (costs_bind _ _ 0 0 0 0); [apply costs_save_html | intros _].
  apply costs_print.
Qed.

(** X22.  A chapter costs at most six requests and eight seconds of sleep, in
    every environment: three attempts for each of its two views, with a
    pause of two seconds after each failed attempt that is not the last. *)
Theorem chapter_cost (batch_folder_path : str) (chapter : Chapter) :
  costs (process_chapter batch_folder_path chapter) 6 8.
Proof.
  unfold process_chapter.
  apply (costs_bind _ _ 0 0 6 8); [apply costs_makedirs | intros _].
  apply (costs_bind _ _ 0 0 6 8); [apply costs_print | intros _].
  apply (costs_bind _ _ 0 0 6 8); [apply costs_print | intros _].
  unfold create_chapter_views.
  apply (costs_bind _ _ 3 4 3 4); [apply costs_create_view | intros _].
  apply costs_create_view.
Qed.

End Costs.

(** ** Batches and chapters that go wrong *)

Section GoneWrong.

Context {E : Environment}.

(** X23.  A batch whose page cannot be fetched is not skipped.  On a reliable
    file system its folder is made, the page is requested three times for
    the snapshot and three more times for the chapters, no snapshot is
    saved, and an index page without chapters is written for it. *)
Theorem batch_without_page (base_dir : str) (batch : Batch) (h : history) :
  reliable_fs E ->
  (forall h', exists e,
      requests_get h' (batch_link batch) generate_headers = Raise e) ->
  let folder := batch_folder_path base_dir batch in
  let index_path := path_join folder (py "index.html") in
  exists e1 e2 e3 e4 e5 e6,
    process_batch base_dir batch h =
      (Ret tt,
       h ++ [Makedirs folder None;
             Print (10 :: py "Processing batch: " ++ batch_name batch);
             Print (py "Folder: " ++ folder)]
         ++ retries (batch_link batch) 0 [e1; e2]
         ++ failed_round (batch_link batch) 2 e3
         ++ Print (py "Fetching chapters from: " ++ batch_link batch)
         :: retries (batch_link batch) 0 [e4; e5]
         ++ failed_round (batch_link batch) 2 e6
         ++ [Makedirs (dirname index_path) None;
             WriteFile index_path (render_batch_index batch []) None;
             Print (py "Created batch index.html at " ++ index_path);
             Sleep 1]).
Proof.
  intros Hfs Hdown folder index_path. unfold process_batch. fold folder.
  erewrite bind_run by (apply makedirs_reliable; assumption).
  erewrite bind_run by reflexivity.
  erewrite bind_run by reflexivity.
  set (h3 := ((h ++ [Makedirs folder None]) ++ _) ++ _).
  destruct (fetch_down (batch_link batch) h3 Hdown) as (e1 & e2 & e3 & Hf1).
  erewrite bind_run by exact Hf1. cbv beta iota.
  erewrite bind_run by reflexivity.
  set (h4 := h3 ++ _).
  unfold extract_chapters.
  destruct (fetch_down (batch_link batch)
              (h4 ++ [Print (py "Fetching chapters from: " ++ batch_link batch)])
              Hdown) as (e4 & e5 & e6 & Hf2).
  erewrite bind_run;
    [|erewrite bind_run by reflexivity; erewrite bind_run by exact Hf2;
      reflexivity].
  erewrite bind_run by (apply create_batch_index_reliable; assumption).
  cbn [map for_each]. erewrite bind_run by reflexivity.
  exists e1, e2, e3, e4, e5, e6. unfold sleep. f_equal.
  subst h4 h3. fold index_path. rewrite <- !app_assoc. reflexivity.
Qed.

(** X24.  A chapter whose link [urlparse] rejects ends the chapters of its
    batch.  On a reliable file system the folder of the chapter and its
    [Lectures] folder are made; then the error leaves the loop over the
    chapters: the [Notes] folder is not made, nothing is fetched, and the
    chapters after it are not processed. *)
Theorem malformed_link_ends_chapters (batch_folder_path link : str)
    (chapter : Chapter) (rest : list Chapter) (e : exn) (h : history) :
  reliable_fs E ->
  chapter_link chapter = Some link ->
  truthy link = true ->
  urlparse link = Raise e ->
  let folder := chapter_folder_path batch_folder_path chapter in
  for_each (chapter :: rest) (process_chapter batch_folder_path) h =
    (Raise e,
     h ++ [Makedirs folder None;
           Print (py "  Processing chapter: " ++ chapter_name chapter);
           Print (py "  Folder: " ++ folder);
           Makedirs (path_join folder (py "Lectures")) None]).
Proof.
  intros Hfs Hlink Ht Hparse folder. cbn [for_each].
  unfold process_chapter. fold folder.
  unfold bind at 1.
  erewrite bind_run by (apply makedirs_reliable; assumption).
  erewrite bind_run by reflexivity.
  erewrite bind_run by reflexivity.
  unfold create_chapter_views, create_view. unfold bind at 1.
  erewrite bind_run by (apply makedirs_reliable; assumption).
  rewrite Hlink. cbn [link_truthy]. rewrite Ht.
  unfold bind at 1. unfold view_url. rewrite Hparse. cbn [lift fst snd].
  rewrite <- !app_assoc. reflexivity.
Qed.

End GoneWrong.

Lemma batch_without_page_witness :
  exists e1 e2 e3 e4 e5 e6,
    process_batch (E := Example.env) Example.base_dir
      {| batch_name := py "Physics 101";
         batch_link := Example.lectures_url;
         batch_img := [];
         batch_folder_name := None |} [] =
      (Ret tt,
       [Makedirs (py "/out/Physics 101") None;
        Print (10 :: py "Processing batch: Physics 101");
        Print (py "Folder: /out/Physics 101")]
         ++ retries Example.lectures_url 0 [e1; e2]
         ++ failed_round Example.lectures_url 2 e3
         ++ Print (py "Fetching chapters from: " ++ Example.lectures_url)
         :: retries Example.lectures_url 0 [e4; e5]
         ++ failed_round Example.lectures_url 2 e6
         ++ [Makedirs (py "/out/Physics 101") None;
             WriteFile (py "/out/Physics 101/index.html")
               (py "chapters of Physics 101: ") None;
             Print (py "Created batch index.html at /out/Physics 101/index.html");
             Sleep 1]).
Proof.
  apply (batch_without_page (E := Example.env) Example.base_dir
           {| batch_name := py "Physics 101";
              batch_link := Example.lectures_url;
              batch_img := [];
              batch_folder_name := None |} []).
  - split; reflexivity.
  - intros h'. exists (py "503 Server Error"). reflexivity.
Defined.

Lemma malformed_link_ends_chapters_witness :
  for_each
    [{| chapter_name := py "Ch 3"; chapter_link := Some (py "http://[::1");
        chapter_img := []; chapter_stats_of := {| videos := 0; notes := 0 |};
        chapter_folder_name := None |}; Example.motion]
    (process_chapter (E := Example.env) (py "/out/B")) [] =
    (Raise (py "not a URL of the site"),
     [Makedirs (py "/out/B/Ch 3") None;
      Print (py "  Processing chapter: Ch 3");
      Print (py "  Folder: /out/B/Ch 3");
      Makedirs (py "/out/B/Ch 3/Lectures") None]).
Proof.
  apply (malformed_link_ends_chapters (E := Example.env) (py "/out/B")
           (py "http://[::1")
           {| chapter_name := py "Ch 3"; chapter_link := Some (py "http://[::1");
              chapter_img := []; chapter_stats_of := {| videos := 0; notes := 0 |};
              chapter_folder_name := None |}
           [Example.motion] (py "not a URL of the site") []).
  - split; reflexivity.
  - reflexivity.
  - reflexivity.
  - reflexivity.
Defined.

(** ** What the views write *)

Section ViewsWrite.

Context {E : Environment}.

Lemma retries_no_write (url : str) (errs : list exn) (attempt : nat)
    (p c : str) (r : option exn) :
  ~ In (WriteFile p c r) (retries url attempt errs).
Proof.
  intros H. pose proof (retries_no_fs url errs attempt) as Hfs.
  rewrite Forall_forall in Hfs. specialize (Hfs _ H). discriminate Hfs.
Qed.

Lemma save_html_writes (text filepath : str) (h : history) :
  exists ok t,
    save_html (Some text) filepath h = (Ret ok, h ++ t) /\
    forall p c r, In (WriteFile p c r) t -> p = filepath /\ c = text.
Proof.
  unfold save_html, try_except, bind, makedirs, write_file, ret, print.
  destruct (os_makedirs h (dirname filepath)) as [e|].
  - eexists _, _. rewrite <- app_assoc. split; [reflexivity|].
    intros p c r [H|[H|[]]]; discriminate H.
  - destruct (open_write _ filepath text) as [e|];
      eexists _, _; rewrite <- !app_assoc; (split; [reflexivity|]).
    + intros p c r [H|[H|[H|[]]]]; try discriminate H.
      injection H as <- <- _. now split.
    + intros p c r [H|[H|[]]]; try discriminate H.
      injection H as <- <- _. now split.
Qed.

Lemma create_view_writes (chapter : Chapter) (folder : str)
    (name view : string) (h : history) :
  exists t,
    snd (create_view chapter folder name view h) = h ++ t /\
    forall p c r,
      In (WriteFile p c r) t ->
      p = path_join (path_join folder (py name)) (py "index.html") /\
      exists url, In (Get url generate_headers (Ret c)) t.
Proof.
  unfold create_view. unfold bind at 1. unfold makedirs.
  destruct (os_makedirs h (path_join folder (py name))) as [e|].
  { eexists. split; [reflexivity|]. intros p c r [H|[]]. discriminate H. }
  set (h1 := h ++ [Makedirs (path_join folder (py name)) None]).
  destruct (link_truthy (chapter_link chapter)).
  2:{ eexists. split; [reflexivity|]. intros p c r [H|[]]. discriminate H. }
  unfold bind at 1. unfold lift.
  destruct (view_url _ (py view)) as [url|e].
  2:{ eexists. split; [reflexivity|]. intros p c r [H|[]]. discriminate H. }
  destruct (fetch_cases url h1)
    as [(errs & text & _ & Heq) | (errs & e & _ & Heq)];
    erewrite bind_run by exact Heq; cbv beta iota.
  - destruct (save_html_writes text
                (path_join (path_join folder (py name)) (py "index.html"))
                (h1 ++ retries url 0 errs
                    ++ [Get url generate_headers (Ret text)]))
      as (ok & t & Hs & Hw).
    erewrite bind_run by exact Hs. unfold print. cbn [snd].
    exists ([Makedirs (path_join folder (py name)) None]
            ++ retries url 0 errs ++ [Get url generate_headers (Ret text)]
            ++ t ++ [Print (py "Created " ++ py view ++ py " index.html at "
                            ++ path_join (path_join folder (py name))
                                 (py "index.html"))]).
    split; [subst h1; rewrite <- !app_assoc; reflexivity|].
    intros p c r Hin.
    apply in_app_or in Hin as [[H|[]]|Hin]; [discriminate H|].
    apply in_app_or in Hin as [Hin|Hin];
      [now apply retries_no_write in Hin|].
    apply in_app_or in Hin as [[H|[]]|Hin]; [discriminate H|].
    apply in_app_or in Hin as [Hin|[H|[]]]; [|discriminate H].
    destruct (Hw _ _ _ Hin) as [-> ->]. split; [reflexivity|].
    exists url. apply in_or_app. right. apply in_or_app. right.
    apply in_or_app. left. now left.
  - unfold ret. cbn [snd]. eexists. split.
    + subst h1. rewrite <- !app_assoc. reflexivity.
    + intros p c r Hin.
      apply in_app_or in Hin as [[H|[]]|Hin]; [discriminate H|].
      apply in_app_or in Hin as [Hin|[H|[H|[]]]]; try discriminate H.
      now apply retries_no_write in Hin.
Qed.

(** X25.  [create_chapter_views] writes nothing but the two index pages of the
    chapter, and writes to them only what a request of the same call
    returned, in every environment. *)
Theorem views_written_as_fetched (chapter : Chapter) (folder : str)
    (h : history) :
  exists t,
    snd (create_chapter_views chapter folder h) = h ++ t /\
    forall p c r,
      In (WriteFile p c r) t ->
      (p = path_join (path_join folder (py "Lectures")) (py "index.html") \/
       p = path_join (path_join folder (py "Notes")) (py "index.html")) /\
      exists url, In (Get url generate_headers (Ret c)) t.
Proof.
  unfold create_chapter_views. unfold bind.
  destruct (create_view_writes chapter folder "Lectures" "lectures" h)
    as (t1 & Ht1 & Hw1).
  destruct (create_view chapter folder "Lectures" "lectures" h)
    as [[[]|e] h1]; cbn [snd] in Ht1; subst h1.
  - destruct (create_view_writes chapter folder "Notes" "notes" (h ++ t1))
      as (t2 & Ht2 & Hw2).
    exists (t1 ++ t2). rewrite Ht2, app_assoc. split; [reflexivity|].
    intros p c r Hin. apply in_app_or in Hin as [Hin|Hin].
    + destruct (Hw1 _ _ _ Hin) as (-> & url & Hg).
      split; [now left|]. exists url. apply in_or_app. now left.
    + destruct (Hw2 _ _ _ Hin) as (-> & url & Hg).
      split; [now right|]. exists url. apply in_or_app. now right.
  - exists t1. split; [reflexivity|].
    intros p c r Hin. destruct (Hw1 _ _ _ Hin) as (-> & url & Hg).
    split; [now left|]. now exists url.
Qed.

End ViewsWrite.
